(** * js.Context: cancellation contexts, their done handlers and the promise
      utilities built on them (src/index.ts), as a shallow embedding.

    Context objects are immutable apart from the three private fields of a
    [_CancelContext]; those live in a store of cells addressed by the index the
    constructor hands out, so that a parent shared by several children is one
    cell.  Closures ([() => void] done handlers, unregister functions, promise
    reactions) are defunctionalised: one constructor per closure the module
    builds, plus a few shapes of caller-supplied callbacks. *)

From Stdlib Require Import ZArith Lia.
From stdpp Require Import base decidable option list strings relations.

(** ** Values *)

(** The JavaScript values that reach an [error] field, a promise or a value
    binding.  [VDeadlineError] and [VCancelledError] are the two module
    constants [deadlineError] and [cancelledError]; [VMisuseError] is the
    [Error] built by the [throw] of the cancel function. *)
Inductive jsval : Type :=
  | VNull
  | VUndefined
  | VBool (b : bool)
  | VNum (z : Z)
  | VDeadlineError
  | VCancelledError
  | VMisuseError
  | VObj (n : nat).

Global Instance jsval_eq_dec : EqDecision jsval.
Proof. solve_decision. Defined.

(** [!err] is [negb (truthy err)]. *)
Definition truthy (v : jsval) : bool :=
  match v with
  | VNull | VUndefined => false
  | VBool b => b
  | VNum z => negb (z =? 0)%Z
  | _ => true
  end.

(** [v === null] *)
Definition is_null (v : jsval) : bool :=
  match v with VNull => true | _ => false end.

(** [Key = string | Symbol] *)
Inductive Key : Type :=
  | KString (s : string)
  | KSymbol (n : nat).

Global Instance Key_eq_dec : EqDecision Key.
Proof. solve_decision. Defined.

(** ** Context objects *)

Inductive emptyKind : Type := Background | Todo.

(** A [Date] is its time value [+d], in milliseconds. *)
Inductive ctx : Type :=
  | EmptyContext (k : emptyKind)
  | ValueContext (parentCtx : ctx) (key : Key) (v : jsval)
  | CancelContext (parentCtx : ctx) (deadline : option Z) (self : nat).

Global Instance emptyKind_eq_dec : EqDecision emptyKind.
Proof. solve_decision. Defined.
Global Instance ctx_eq_dec : EqDecision ctx.
Proof. solve_decision. Defined.

Definition background : ctx := EmptyContext Background.
Definition todo : ctx := EmptyContext Todo.
Definition withValue (parentCtx : ctx) (k : Key) (v : jsval) : ctx :=
  ValueContext parentCtx k v.

(** ** Closures *)

(** What [doneHandler] returns: [_noop], or the closure over the node and the
    fresh symbol [s] that filters the node's handler list. *)
Inductive unregFunc : Type :=
  | Noop
  | Unreg (node : nat) (s : nat).

(** Done handlers.  [HPropagate] is the closure the constructor registers on
    the parent, [HExpiry] the one of [expiryPromise]; the others are callbacks
    a caller can write: an opaque observer whose invocation is recorded, a call
    of an unregister function, a call of the trigger paired with a node, and
    the completion of an operation's promise. *)
Inductive handler : Type :=
  | HUser (k : nat)
  | HCallUnreg (u : unregFunc)
  | HCallCancel (node : nat)
  | HSettle (p : nat) (fulfilled : bool) (v : jsval)
  | HPropagate (child : nat) (parentCtx : ctx)
  | HExpiry (p : nat) (c : ctx).

(** The mutable fields of a [_CancelContext]. *)
Record cancelState : Type := mkCancelState {
  __error : jsval;
  __doneHandlers : list (nat * handler);
  __unregParentFunc : option unregFunc
}.

Definition freshState : cancelState :=
  {| __error := VNull; __doneHandlers := []; __unregParentFunc := None |}.

(** ** Promises *)

Inductive pstate : Type :=
  | Pending
  | Fulfilled (v : jsval)
  | Rejected (v : jsval).

(** The three callbacks [raceContext] passes to [then] and [catch]; [R] is the
    promise [raceContext] returns, whose [resolve] and [reject] they close
    over, together with the call's [aborted] variable. *)
Inductive reaction : Type :=
  | ROperationDone (R : nat) (cleanupFunc : bool)
  | ROperationFailed (R : nat)
  | RExpired (R : nat).

Record promise : Type := mkPromise {
  p_state : pstate;
  p_onFulfilled : list reaction;
  p_onRejected : list reaction
}.

(** ** The store *)

Record store : Type := mkStore {
  cells : list cancelState;
  nextSym : nat;                    (* the next [Symbol()] *)
  timers : list (Z * nat);          (* [setTimeout(f, tr)] of node [i], as [(tr, i)] *)
  trace : list nat;                 (* [HUser] callbacks invoked, oldest first *)
  promises : list promise;
  jobs : list (reaction * jsval);   (* the microtask queue, oldest first *)
  aborted : bool;                   (* [let aborted] of the [raceContext] call *)
  cleaned : list jsval;             (* arguments [cleanupFunc] was called with *)
  fcalls : nat                      (* how often the operation [f] was started *)
}.

Definition emptyStore : store :=
  mkStore [] 0 [] [] [] [] false [] 0.

Definition with_cells (f : list cancelState → list cancelState) (s : store) : store :=
  mkStore (f (cells s)) (nextSym s) (timers s) (trace s) (promises s) (jobs s)
          (aborted s) (cleaned s) (fcalls s).
Definition with_nextSym (n : nat) (s : store) : store :=
  mkStore (cells s) n (timers s) (trace s) (promises s) (jobs s)
          (aborted s) (cleaned s) (fcalls s).
Definition with_timers (t : list (Z * nat)) (s : store) : store :=
  mkStore (cells s) (nextSym s) t (trace s) (promises s) (jobs s)
          (aborted s) (cleaned s) (fcalls s).
Definition with_trace (t : list nat) (s : store) : store :=
  mkStore (cells s) (nextSym s) (timers s) t (promises s) (jobs s)
          (aborted s) (cleaned s) (fcalls s).
Definition with_promises (p : list promise) (s : store) : store :=
  mkStore (cells s) (nextSym s) (timers s) (trace s) p (jobs s)
          (aborted s) (cleaned s) (fcalls s).
Definition with_jobs (j : list (reaction * jsval)) (s : store) : store :=
  mkStore (cells s) (nextSym s) (timers s) (trace s) (promises s) j
          (aborted s) (cleaned s) (fcalls s).
Definition with_aborted (b : bool) (s : store) : store :=
  mkStore (cells s) (nextSym s) (timers s) (trace s) (promises s) (jobs s)
          b (cleaned s) (fcalls s).
Definition with_cleaned (c : list jsval) (s : store) : store :=
  mkStore (cells s) (nextSym s) (timers s) (trace s) (promises s) (jobs s)
          (aborted s) c (fcalls s).
Definition with_fcalls (n : nat) (s : store) : store :=
  mkStore (cells s) (nextSym s) (timers s) (trace s) (promises s) (jobs s)
          (aborted s) (cleaned s) n.

(** The fields of node [i].  Indices come from the constructor only, so a
    lookup outside the store does not arise; it reads as a fresh node. *)
Definition cell (s : store) (i : nat) : cancelState :=
  default freshState (cells s !! i).

Definition set_error (i : nat) (e : jsval) (s : store) : store :=
  with_cells (alter (λ st, mkCancelState e (__doneHandlers st) (__unregParentFunc st)) i) s.
Definition set_doneHandlers (i : nat) (hs : list (nat * handler)) (s : store) : store :=
  with_cells (alter (λ st, mkCancelState (__error st) hs (__unregParentFunc st)) i) s.
Definition set_unregParentFunc (i : nat) (u : option unregFunc) (s : store) : store :=
  with_cells (alter (λ st, mkCancelState (__error st) (__doneHandlers st) u) i) s.

(** ** Outcomes of a call *)

Inductive outcome (A : Type) : Type :=
  | Ok (a : A) (s : store)
  | Throw (s : store)     (* the only [throw] of the module: the misuse error *)
  | OutOfFuel.
Arguments Ok {A} a s.
Arguments Throw {A} s.
Arguments OutOfFuel {A}.

Definition obind {A B} (m : outcome A) (k : A → store → outcome B) : outcome B :=
  match m with
  | Ok a s => k a s
  | Throw s => Throw s
  | OutOfFuel => OutOfFuel
  end.

(** ** Promise primitives *)

Definition newPromise (st : pstate) (s : store) : nat * store :=
  (length (promises s), with_promises (promises s ++ [mkPromise st [] []]) s).

(** [resolve(v)] / [reject(v)] of promise [p]: only the first call counts; the
    reactions registered for that outcome are queued in order. *)
Definition settle (p : nat) (fulfilled : bool) (v : jsval) (s : store) : store :=
  match promises s !! p with
  | Some (mkPromise Pending onF onR) =>
      let st := if fulfilled then Fulfilled v else Rejected v in
      let rs := if fulfilled then onF else onR in
      with_jobs (jobs s ++ map (λ r, (r, v)) rs)
        (with_promises (<[p := mkPromise st [] []]> (promises s)) s)
  | _ => s
  end.

(** [p.then(onF, onR)]; [p.catch(h)] is [p.then(undefined, h)].  On a settled
    promise the job is queued at once.  The derived promise is not used by the
    module and is left out. *)
Definition then_ (p : nat) (onF onR : option reaction) (s : store) : store :=
  match promises s !! p with
  | Some (mkPromise Pending fs rs) =>
      with_promises
        (<[p := mkPromise Pending (fs ++ option_list onF) (rs ++ option_list onR)]>
           (promises s)) s
  | Some (mkPromise (Fulfilled v) _ _) =>
      with_jobs (jobs s ++ map (λ r, (r, v)) (option_list onF)) s
  | Some (mkPromise (Rejected v) _ _) =>
      with_jobs (jobs s ++ map (λ r, (r, v)) (option_list onR)) s
  | None => s
  end.

(** ** The context contract *)

Fixpoint deadline (c : ctx) : option Z :=
  match c with
  | EmptyContext _ => None
  | ValueContext p _ _ => deadline p
  | CancelContext p d _ =>
      match d with
      | Some d' => Some d'
      | None => deadline p
      end
  end.

Fixpoint error (s : store) (c : ctx) : jsval :=
  match c with
  | EmptyContext _ => VNull
  | ValueContext p _ _ => error s p
  | CancelContext _ _ i => __error (cell s i)
  end.

Fixpoint value (c : ctx) (k : Key) : jsval :=
  match c with
  | EmptyContext _ => VUndefined
  | ValueContext p k' v => if decide (k' = k) then v else value p k
  | CancelContext p _ _ => value p k
  end.

(** The unregister closure: [this.__doneHandlers = this.__doneHandlers.filter(x => x[0] !== s)].
    It builds a new array and leaves the old one as it is. *)
Definition callUnreg (u : unregFunc) (s : store) : store :=
  match u with
  | Noop => s
  | Unreg i sym =>
      set_doneHandlers i (filter (λ x, x.1 ≠ sym) (__doneHandlers (cell s i))) s
  end.

(** [for (const h of hs) h[1]()], over the array the loop started with. *)
Fixpoint runHandlers (call : handler → store → outcome unit)
    (hs : list handler) (s : store) : outcome unit :=
  match hs with
  | [] => Ok tt s
  | h :: rest =>
      match call h s with
      | Ok _ s' => runHandlers call rest s'
      | r => r
      end
  end.

(** [_CancelContext.prototype[symCancelFunc]], with the way a handler is called
    as a parameter.  The loop runs over the array that [__doneHandlers] held
    when it started: while it runs [__error] is set, so [doneHandler] pushes
    nothing onto it, and unregistering replaces the field by a new array. *)
Definition symCancelFunc (call : handler → store → outcome unit)
    (i : nat) (err : jsval) (s : store) : outcome unit :=
  if negb (truthy err) then Throw s
  else if negb (is_null (__error (cell s i))) then Ok tt s
  else
    let s1 := set_error i err s in
    match runHandlers call (map snd (__doneHandlers (cell s1 i))) s1 with
    | Ok _ s2 =>
        let s3 := set_doneHandlers i [] s2 in
        match __unregParentFunc (cell s3 i) with
        | Some u => Ok tt (set_unregParentFunc i None (callUnreg u s3))
        | None => Ok tt s3
        end
    | r => r
    end.

(** Calling a done handler.  [fuel] bounds the nesting of cancellations. *)
Fixpoint callHandler (fuel : nat) (h : handler) (s : store) : outcome unit :=
  match fuel with
  | 0 => OutOfFuel
  | S n =>
      match h with
      | HUser k => Ok tt (with_trace (trace s ++ [k]) s)
      | HCallUnreg u => Ok tt (callUnreg u s)
      | HCallCancel i => symCancelFunc (callHandler n) i (VBool true) s
      | HSettle p b v => Ok tt (settle p b v s)
      | HPropagate child p =>
          let s' := set_unregParentFunc child None s in
          symCancelFunc (callHandler n) child (error s' p) s'
      | HExpiry p c => Ok tt (settle p false (error s c) s)
      end
  end.

(** [doneHandler(f)] of the three classes. *)
Fixpoint doneHandler (fuel : nat) (c : ctx) (f : handler) (s : store)
    : outcome unregFunc :=
  match c with
  | EmptyContext _ => Ok Noop s
  | ValueContext p _ _ => doneHandler fuel p f s
  | CancelContext _ _ i =>
      if negb (is_null (__error (cell s i))) then
        obind (callHandler fuel f s) (λ _ s', Ok Noop s')
      else
        let sym := nextSym s in
        Ok (Unreg i sym)
           (set_doneHandlers i (__doneHandlers (cell s i) ++ [(sym, f)])
              (with_nextSym (S sym) s))
  end.

(** [new _CancelContext(parentCtx, deadline)]; [now] is what [+new Date()]
    reads.  The new node is the next cell of the store. *)
Definition newCancelContext (fuel : nat) (parentCtx : ctx) (dl : option Z)
    (now : Z) (s : store) : outcome ctx :=
  let i := length (cells s) in
  let this := CancelContext parentCtx dl i in
  let s0 := with_cells (λ cs, cs ++ [freshState]) s in
  obind (doneHandler fuel parentCtx (HPropagate i parentCtx) s0) (λ u s1,
    let s2 := set_unregParentFunc i (Some u) s1 in
    match dl with
    | Some d =>
        if is_null (__error (cell s2 i)) then
          let tr := (d - now)%Z in
          if (tr <=? 0)%Z then
            obind (symCancelFunc (callHandler fuel) i VDeadlineError s2)
                  (λ _ s3, Ok this s3)
          else Ok this (with_timers (timers s2 ++ [(tr, i)]) s2)
        else Ok this s2
    | None => Ok this s2
    end).

(** The function paired with the node: [() => ctx[symCancelFunc](true, cancelledError)].
    The method has one parameter, [err], which receives [true]; the second
    argument is not read. *)
Definition cancelTrigger (fuel : nat) (i : nat) (s : store) : outcome unit :=
  symCancelFunc (callHandler fuel) i (VBool true) s.

(** The node a context made by [withDeadline] stands for. *)
Definition nodeOf (c : ctx) : nat :=
  match c with
  | CancelContext _ _ i => i
  | _ => 0
  end.

Definition withDeadline (fuel : nat) (parentCtx : ctx) (dl : option Z)
    (now : Z) (s : store) : outcome (ctx * handler) :=
  obind (newCancelContext fuel parentCtx dl now s)
        (λ c s', Ok (c, HCallCancel (nodeOf c)) s').


Definition withCancel (fuel : nat) (parentCtx : ctx) (s : store)
    : outcome (ctx * handler) :=
  withDeadline fuel parentCtx None 0%Z s.

(** ** Promise utilities *)

(** [expiryPromise(ctx)]: the new promise, with its rejection registered as a
    done handler. *)
Definition expiryPromise (fuel : nat) (c : ctx) (s : store) : outcome nat :=
  let '(P, s1) := newPromise Pending s in
  obind (doneHandler fuel c (HExpiry P c) s1) (λ _ s2, Ok P s2).

(** The operation [f] handed to [raceContext]: what it does before it returns
    (as a sequence of callbacks) and the state of the promise it returns. *)
Record operation : Type := mkOperation {
  op_body : list handler;
  op_result : pstate
}.

(** A throw inside a promise executor rejects the promise being built. *)
Definition raceContext (fuel : nat) (c : ctx) (f : operation) (cleanupFunc : bool)
    (s : store) : outcome nat :=
  if negb (is_null (error s c)) then
    let '(R, s1) := newPromise (Rejected (error s c)) s in Ok R s1
  else
    let s0 := with_aborted false s in
    let '(R, s1) := newPromise Pending s0 in
    let s2 := with_fcalls (S (fcalls s1)) s1 in
    match runHandlers (callHandler fuel) (op_body f) s2 with
    | Ok _ s3 =>
        let '(Q, s4) := newPromise (op_result f) s3 in
        let s5 := then_ Q (Some (ROperationDone R cleanupFunc))
                          (Some (ROperationFailed R)) s4 in
        match expiryPromise fuel c s5 with
        | Ok P s6 => Ok R (then_ P None (Some (RExpired R)) s6)
        | Throw s6 => Ok R (settle R false VMisuseError s6)
        | OutOfFuel => OutOfFuel
        end
    | Throw s3 => Ok R (settle R false VMisuseError s3)
    | OutOfFuel => OutOfFuel
    end.

(** One promise reaction job. *)
Definition runJob (j : reaction * jsval) (s : store) : store :=
  match j with
  | (ROperationDone R cleanupFunc, x) =>
      let s1 := if aborted s && cleanupFunc
                then with_cleaned (cleaned s ++ [x]) s else s in
      settle R true x s1
  | (ROperationFailed R, e) => settle R false e s
  | (RExpired R, e) => settle R false e (with_aborted true s)
  end.

(** The microtask queue is run, oldest job first, until it is empty. *)
Fixpoint runJobs (fuel : nat) (s : store) : store :=
  match fuel with
  | 0 => s
  | S n =>
      match jobs s with
      | [] => s
      | j :: rest => runJobs n (runJob j (with_jobs rest s))
      end
  end.

(** A turn of the event loop: synchronous caller code, then the microtasks. *)
Definition turn (fuel : nat) (code : list handler) (s : store) : outcome unit :=
  obind (runHandlers (callHandler fuel) code s) (λ _ s', Ok tt (runJobs fuel s')).

(** Enough fuel for any call in store [s]: a cancellation nests at most once
    per node that is still without an error. *)
Definition fuelFor (s : store) : nat := 2 + length (cells s).

Definition cancel (i : nat) (err : jsval) (s : store) : outcome unit :=
  symCancelFunc (callHandler (fuelFor s)) i err s.

(** * Definitions for the proofs *)

(** ** Outcomes *)

(** [Q] holds of the store a call ends in, whether it returns or throws. *)
Definition after {A} (o : outcome A) (Q : store → Prop) : Prop :=
  match o with
  | Ok _ s' | Throw s' => Q s'
  | OutOfFuel => True
  end.

(** [Q] holds of the store a call returns. *)
Definition afterOk {A} (o : outcome A) (Q : store → Prop) : Prop :=
  match o with
  | Ok _ s' => Q s'
  | _ => True
  end.

(** The call returns, and [Q] holds of the store it returns. *)
Definition settled {A} (o : outcome A) (Q : store → Prop) : Prop :=
  match o with
  | Ok _ s' => Q s'
  | _ => False
  end.

Definition notThrow {A} (o : outcome A) : Prop :=
  match o with
  | Throw _ => False
  | _ => True
  end.

Definition storeOf {A} (o : outcome A) : store :=
  match o with
  | Ok _ s | Throw s => s
  | OutOfFuel => emptyStore
  end.

(** ** The writes a handler call is made of *)

(** Every store a handler call passes through comes from the one before by one
    of these writes: an error is set where there was none, a handler list
    loses entries, an unsubscribe handle is dropped, a callback is recorded, a
    promise is settled. *)
Inductive prim : store → store → Prop :=
  | prim_error i e s :
      is_null (__error (cell s i)) = true → truthy e = true →
      prim s (set_error i e s)
  | prim_handlers i hs s :
      sublist hs (__doneHandlers (cell s i)) → prim s (set_doneHandlers i hs s)
  | prim_unreg i s : prim s (set_unregParentFunc i None s)
  | prim_trace k s : prim s (with_trace (trace s ++ [k]) s)
  | prim_settle p b v s : prim s (settle p b v s).

(** No node is added and an error that is present stays as it is. *)
Definition keeps (s s' : store) : Prop :=
  length (cells s') = length (cells s) ∧
  ∀ j, is_null (__error (cell s j)) = false → __error (cell s' j) = __error (cell s j).

(** The number of nodes without an error; it bounds the nesting of
    cancellations. *)
Definition actives (s : store) : nat :=
  length (filter (λ st, __error st = VNull) (cells s)).

Definition isNull (s : store) (j : nat) : bool := is_null (__error (cell s j)).

(** ** Contexts and the nodes behind them *)

(** The cancellable node whose state a context reads: the nearest
    [_CancelContext] at or above it. *)
Fixpoint owner (c : ctx) : option nat :=
  match c with
  | EmptyContext _ => None
  | ValueContext p _ _ => owner p
  | CancelContext _ _ i => Some i
  end.

(** Every node the context refers to is one of the first [n] of the store. *)
Fixpoint ctx_in (n : nat) (c : ctx) : Prop :=
  match c with
  | EmptyContext _ => True
  | ValueContext p _ _ => ctx_in n p
  | CancelContext p _ i => i < n ∧ ctx_in n p
  end.

(** [__doneHandlers.push([Symbol(), f])] on node [i]. *)
Definition register (i : nat) (f : handler) (s : store) : store :=
  set_doneHandlers i (__doneHandlers (cell s i) ++ [(nextSym s, f)])
    (with_nextSym (S (nextSym s)) s).

(** The last statements of a transition: the list is cleared and the node
    unsubscribes from its parent. *)
Definition finish (i : nat) (s2 : store) : store :=
  let s3 := set_doneHandlers i [] s2 in
  match __unregParentFunc (cell s3 i) with
  | Some u => set_unregParentFunc i None (callUnreg u s3)
  | None => s3
  end.

(** A deadline that has not passed when the constructor reads the clock. *)
Definition notYet (now : Z) (dl : option Z) : Prop :=
  match dl with
  | Some d => (now < d)%Z
  | None => True
  end.

(** The store a constructor call leaves when the parent has no error and the
    deadline has not passed. *)
Definition subscribeNew (parent : ctx) (dl : option Z) (now : Z) (s : store) : store :=
  let i := length (cells s) in
  let s0 := with_cells (λ cs, cs ++ [freshState]) s in
  let '(u, s1) := match owner parent with
                  | Some j => (Unreg j (nextSym s), register j (HPropagate i parent) s0)
                  | None => (Noop, s0)
                  end in
  let s2 := set_unregParentFunc i (Some u) s1 in
  match dl with
  | Some d => with_timers (timers s2 ++ [((d - now)%Z, i)]) s2
  | None => s2
  end.

(** ** The deadline rule of the specification *)

(** The specification's wording: a node reports the minimum of its declared
    deadline and the deadline its parent reports. *)
Definition declaredDeadline (c : ctx) : option Z :=
  match c with
  | CancelContext _ d _ => d
  | _ => None
  end.
Definition parentOf (c : ctx) : option ctx :=
  match c with
  | EmptyContext _ => None
  | ValueContext p _ _ => Some p
  | CancelContext p _ _ => Some p
  end.
Definition earliest (a b : option Z) : option Z :=
  match a, b with
  | Some x, Some y => Some (Z.min x y)
  | Some x, None => Some x
  | None, _ => b
  end.
Definition minimumRule (c : ctx) : Prop :=
  ∀ p, parentOf c = Some p → deadline c = earliest (declaredDeadline c) (deadline p).
Definition notLater (a b : option Z) : Prop :=
  match a, b with
  | Some x, Some y => (x ≤ y)%Z
  | _, _ => True
  end.

(** ** Stores the interface produces *)

(** A node with an error holds no handlers; the nodes of [D] are exempt: they
    are in their firing pass, between the write of the error and the clearing
    of the list. *)
Definition doneMeansEmptyExcept (D : list nat) (s : store) : Prop :=
  ∀ i, i ∉ D → is_null (__error (cell s i)) = false → __doneHandlers (cell s i) = [].
Definition doneMeansEmpty (s : store) : Prop := doneMeansEmptyExcept [] s.

(** The constructor's closure sits on the node its parent context reads. *)
Definition okHandler (j : nat) (h : handler) : Prop :=
  match h with
  | HPropagate _ p => owner p = Some j
  | _ => True
  end.
Definition subscribedOnOwner (s : store) : Prop :=
  ∀ j x, x ∈ __doneHandlers (cell s j) → okHandler j x.2.

(** An error that is present is a cause the transition function accepts. *)
Definition errorsTruthy (s : store) : Prop :=
  ∀ j, is_null (__error (cell s j)) = false → truthy (__error (cell s j)) = true.

(** The handler does not hand an absent cause to the transition function. *)
Definition safe (s : store) (h : handler) : Prop :=
  match h with
  | HPropagate _ p => truthy (error s p) = true
  | _ => True
  end.

Definition wo (s : store) : Prop := subscribedOnOwner s ∧ errorsTruthy s.

Definition good (s : store) : Prop :=
  doneMeansEmpty s ∧ subscribedOnOwner s ∧ errorsTruthy s.

(** The calls a caller of the module can make on the cancellable nodes: the
    trigger paired with a node, the firing of its timer, [doneHandler], an
    unregister function, and the constructor behind [withDeadline],
    [withTimeout] and [withCancel]. *)
Inductive apiCall : Type :=
  | CallTrigger (i : nat)
  | TimerFires (i : nat)
  | CallDoneHandler (c : ctx) (f : handler)
  | CallUnregister (u : unregFunc)
  | NewCancelContext (parentCtx : ctx) (dl : option Z) (now : Z).

Inductive apiResult : Type :=
  | RUnit
  | RUnreg (u : unregFunc)
  | RCtx (c : ctx).

Definition exec (a : apiCall) (s : store) : outcome apiResult :=
  let fuel := fuelFor s in
  match a with
  | CallTrigger i => obind (cancelTrigger fuel i s) (λ _ s', Ok RUnit s')
  | TimerFires i =>
      obind (symCancelFunc (callHandler fuel) i VDeadlineError s) (λ _ s', Ok RUnit s')
  | CallDoneHandler c f => obind (doneHandler fuel c f s) (λ u s', Ok (RUnreg u) s')
  | CallUnregister u => Ok RUnit (callUnreg u s)
  | NewCancelContext p dl now =>
      obind (newCancelContext fuel p dl now s) (λ c s', Ok (RCtx c) s')
  end.

(** The callbacks a caller can pass: all but the constructor's own closure. *)
Definition userCallback (f : handler) : Prop :=
  match f with
  | HPropagate _ _ => False
  | _ => True
  end.
Definition legal (a : apiCall) : Prop :=
  match a with
  | CallDoneHandler _ f => userCallback f
  | _ => True
  end.

Inductive reachable : store → Prop :=
  | reachable_empty : reachable emptyStore
  | reachable_exec a r s s' :
      reachable s → legal a → exec a s = Ok r s' → reachable s'.

(** ** Propagation *)

(** A handler that does no cancellation work of its own: an observer, a promise
    callback, or the subscription of a child, placed on the node the child's
    parent context reads. *)
Definition quiet (s : store) (j : nat) (h : handler) : Prop :=
  match h with
  | HUser _ | HSettle _ _ _ | HExpiry _ _ => True
  | HPropagate c p => owner p = Some j ∧ c < length (cells s)
  | HCallUnreg _ | HCallCancel _ => False
  end.
Definition quietStore (s : store) : Prop :=
  ∀ j x, x ∈ __doneHandlers (cell s j) → quiet s j x.2.

(** The symbol a node's [__unregParentFunc] closes over tags that node's own
    subscription and nothing else. *)
Definition ownUnreg (s : store) : Prop :=
  ∀ x j sym h, __unregParentFunc (cell s x) = Some (Unreg j sym) →
    (sym, h) ∈ __doneHandlers (cell s j) → ∃ p, h = HPropagate x p.

(** Symbols in use are below the next one to be made. *)
Definition symsBelow (s : store) : Prop :=
  (∀ j x, x ∈ __doneHandlers (cell s j) → x.1 < nextSym s) ∧
  (∀ x j sym, __unregParentFunc (cell s x) = Some (Unreg j sym) → sym < nextSym s).

Definition tidy (s : store) : Prop := quietStore s ∧ ownUnreg s ∧ symsBelow s.

(** Node [c] is subscribed on node [j]. *)
Definition edge (s : store) (j c : nat) : Prop :=
  ∃ sym p, (sym, HPropagate c p) ∈ __doneHandlers (cell s j).

(** What a pass with cause [E] does to a store: errors appear only where there
    was none, and they are [E]; a node that got its error in the pass has all
    the nodes subscribed on it done; a subscription on a node still without an
    error is only lost when the subscriber is done. *)
Record cascade (E : jsval) (s s' : store) : Prop := mkCascade {
  cas_len : length (cells s') = length (cells s);
  cas_err : ∀ j, __error (cell s' j) = __error (cell s j) ∨
                 (isNull s j = true ∧ __error (cell s' j) = E);
  cas_closed : ∀ j c, edge s j c → isNull s j = true → isNull s' j = false →
                      isNull s' c = false;
  cas_edge : ∀ j c, edge s j c → isNull s' j = true → edge s' j c ∨ isNull s' c = false;
  cas_quiet : quietStore s';
  cas_own : ownUnreg s'
}.

(** A handler as it is met in a pass with cause [E]. *)
Definition legit (E : jsval) (s : store) (h : handler) : Prop :=
  match h with
  | HUser _ | HSettle _ _ _ | HExpiry _ _ => True
  | HPropagate c p => error s p = E ∧ c < length (cells s)
  | HCallUnreg _ | HCallCancel _ => False
  end.

(** Once a subscription has run, its node has an error. *)
Definition fired (s : store) (h : handler) : Prop :=
  match h with
  | HPropagate c _ => isNull s c = false
  | _ => True
  end.

Definition cascades {A} (E : jsval) (s : store) (o : outcome A) (Q : store → Prop) : Prop :=
  match o with
  | Ok _ s' => cascade E s s' ∧ Q s'
  | Throw _ => False
  | OutOfFuel => True
  end.


(** The subscription the constructor made for a context is in place: while the
    node has no error, neither has the node of its parent, and the closure is
    in that node's list. *)
Definition subscribed (s : store) (c : ctx) : Prop :=
  match c with
  | CancelContext p _ i =>
      isNull s i = true →
      ∃ j, owner p = Some j ∧ isNull s j = true ∧
           ∃ sym, (sym, HPropagate i p) ∈ __doneHandlers (cell s j)
  | _ => True
  end.


(** ** Scenarios *)

(** [c0 = withCancel(background())[0]] and [c1 = withCancel(c0)[0]]. *)
Definition c0 : ctx := CancelContext background None 0.
Definition s_c0 : store := storeOf (withCancel 3 background emptyStore).
Definition c1 : ctx := CancelContext c0 None 1.
Definition s_c0_c1 : store := storeOf (withCancel 3 c0 s_c0).
Definition s_done : store := storeOf (cancelTrigger 3 0 s_c0).

(** [let unregF; c0.doneHandler(() => unregF()); unregF = c0.doneHandler(f)]:
    the first handler calls the unregister function of the second, which is
    the closure over node 0 and symbol 1. *)
Definition g_unreg : handler := HCallUnreg (Unreg 0 1).
Definition f_user : handler := HUser 7.
Definition s_g : store := storeOf (doneHandler 3 c0 g_unreg s_c0).
Definition s_gf : store := storeOf (doneHandler 3 c0 f_user s_g).

(** [async () => { cancel(); return 42; }] and an operation whose promise is
    pending when it returns.  In a race on store [s] the returned promise is
    promise [length (promises s)], the operation's the one after it. *)
Definition f_cancels_then_resolved : operation :=
  mkOperation [HCallCancel 0] (Fulfilled (VNum 42)).
Definition f_pending : operation := mkOperation [] Pending.
Definition s_resolver : store :=
  storeOf (doneHandler 3 c0 (HSettle 1 true (VNum 42)) s_c0).


(** A node with a deadline, a handler on it that calls the trigger of the
    child made after it, and that child. *)
Definition top_d : ctx := CancelContext background (Some 100%Z) 0.
Definition child_d : ctx := CancelContext top_d None 1.
Definition s_compete : store :=
  storeOf (withCancel 3 top_d
    (storeOf (doneHandler 3 top_d (HCallCancel 1)
      (storeOf (withDeadline 3 background (Some 100%Z) 0 emptyStore))))).

(** ** The rest of the module *)

(** [withDoneHandler] is an async function: its body runs up to the [await]
    when it is called, and the rest runs in a later job, once the promise
    [scopeFunc] returned has settled.  A call ends either with the returned
    promise settled ([scopeFunc] threw inside the [try], or [doneHandler]
    threw before it) or suspended on the awaited promise, holding [unreg]. *)
Inductive asyncState : Type :=
  | Finished (result : pstate)
  | Awaiting (awaited : nat) (unreg : unregFunc).

Definition withDoneHandler (fuel : nat) (c : ctx) (handler_ : handler)
    (scopeFunc : operation) (s : store) : outcome asyncState :=
  match doneHandler fuel c handler_ s with
  | Ok unreg s1 =>
      match runHandlers (callHandler fuel) (op_body scopeFunc) s1 with
      | Ok _ s2 =>
          let '(Q, s3) := newPromise (op_result scopeFunc) s2 in
          Ok (Awaiting Q unreg) s3
      | Throw s2 => Ok (Finished (Rejected VMisuseError)) (callUnreg unreg s2)
      | OutOfFuel => OutOfFuel
      end
  | Throw s1 => Ok (Finished (Rejected VMisuseError)) s1
  | OutOfFuel => OutOfFuel
  end.

(** The rest of the body, with the state the awaited promise settled in:
    [finally { unreg(); }], then [return rv] or the failure rethrown.  The
    first component is the state of the promise [withDoneHandler] returned. *)
Definition withDoneHandler_resume (unreg : unregFunc) (awaited : pstate) (s : store)
    : pstate * store :=
  match awaited with
  | Pending => (Pending, s)
  | Fulfilled rv => (Fulfilled rv, callUnreg unreg s)
  | Rejected e => (Rejected e, callUnreg unreg s)
  end.

(** The bindings above a context, nearest first, and the first binding of a
    key in such a list. *)
Fixpoint bindings (c : ctx) : list (Key * jsval) :=
  match c with
  | EmptyContext _ => []
  | ValueContext p k v => (k, v) :: bindings p
  | CancelContext p _ _ => bindings p
  end.

Fixpoint firstBinding (k : Key) (l : list (Key * jsval)) : option jsval :=
  match l with
  | [] => None
  | (k', v) :: rest => if decide (k' = k) then Some v else firstBinding k rest
  end.

(** The symbols in the handler lists are below the next one to be made. *)
Definition freshSymbols (s : store) : Prop :=
  ∀ j x, x ∈ __doneHandlers (cell s j) → x.1 < nextSym s.

(** The causes the module itself hands to the transition function. *)
Definition moduleCause (e : jsval) : Prop := e = VBool true ∨ e = VDeadlineError.
Definition causesFromModule (s : store) : Prop :=
  ∀ j, __error (cell s j) = VNull ∨ moduleCause (__error (cell s j)).

(** A node with an observer; a value context over [c0]; a race on a context
    that is done; a scope that is running. *)
Definition s_obs : store := storeOf (doneHandler 3 c0 (HUser 7) s_c0).
Definition pv : ctx := withValue c0 (KString "user") (VNum 1).
Definition s_rejected : store := storeOf (raceContext 3 c0 f_pending true s_done).
Definition s_scope : store := storeOf (withDoneHandler 3 c0 (HUser 7) f_pending s_c0).

(** * Lemmas *)

(** ** Reading and writing cells *)

Lemma cell_alter f i j s :
  cell (with_cells (alter f i) s) j =
    if decide (i = j ∧ j < length (cells s)) then f (cell s j) else cell s j.
Proof.
  unfold cell, with_cells; simpl.
  destruct (decide (i = j)) as [->|Hne].
  - rewrite list_lookup_alter_eq.
    destruct (cells s !! j) as [st|] eqn:E; simpl.
    + apply lookup_lt_Some in E. rewrite decide_True; [done | split; [done | lia]].
    + apply lookup_ge_None in E. rewrite decide_False; [done | lia].
  - rewrite list_lookup_alter_ne by done. rewrite decide_False; [done | tauto].
Qed.

Lemma error_set_error i e j s :
  __error (cell (set_error i e s) j) =
    if decide (i = j ∧ j < length (cells s)) then e else __error (cell s j).
Proof. unfold set_error. rewrite cell_alter. by case_decide. Qed.

Lemma error_set_doneHandlers i hs j s :
  __error (cell (set_doneHandlers i hs s) j) = __error (cell s j).
Proof. unfold set_doneHandlers. rewrite cell_alter. by case_decide. Qed.

Lemma error_set_unregParentFunc i u j s :
  __error (cell (set_unregParentFunc i u s) j) = __error (cell s j).
Proof. unfold set_unregParentFunc. rewrite cell_alter. by case_decide. Qed.

Lemma error_callUnreg u j s : __error (cell (callUnreg u s) j) = __error (cell s j).
Proof. destruct u; simpl; [done | apply error_set_doneHandlers]. Qed.

Lemma cell_settle p b v s j : cell (settle p b v s) j = cell s j.
Proof.
  unfold settle. destruct (promises s !! p) as [[[| |] ? ?]|]; done.
Qed.

Lemma length_set_error i e s : length (cells (set_error i e s)) = length (cells s).
Proof. apply length_alter. Qed.
Lemma length_set_doneHandlers i hs s :
  length (cells (set_doneHandlers i hs s)) = length (cells s).
Proof. apply length_alter. Qed.
Lemma length_set_unregParentFunc i u s :
  length (cells (set_unregParentFunc i u s)) = length (cells s).
Proof. apply length_alter. Qed.
Lemma length_callUnreg u s : length (cells (callUnreg u s)) = length (cells s).
Proof. destruct u; [done | apply length_alter]. Qed.

Lemma cell_set_error i e j s :
  cell (set_error i e s) j =
    if decide (i = j ∧ j < length (cells s))
    then mkCancelState e (__doneHandlers (cell s j)) (__unregParentFunc (cell s j))
    else cell s j.
Proof. apply cell_alter. Qed.
Lemma cell_set_doneHandlers i hs j s :
  cell (set_doneHandlers i hs s) j =
    if decide (i = j ∧ j < length (cells s))
    then mkCancelState (__error (cell s j)) hs (__unregParentFunc (cell s j))
    else cell s j.
Proof. apply cell_alter. Qed.
Lemma cell_set_unregParentFunc i u j s :
  cell (set_unregParentFunc i u s) j =
    if decide (i = j ∧ j < length (cells s))
    then mkCancelState (__error (cell s j)) (__doneHandlers (cell s j)) u
    else cell s j.
Proof. apply cell_alter. Qed.

Lemma handlers_set_error i e j s :
  __doneHandlers (cell (set_error i e s) j) = __doneHandlers (cell s j).
Proof. rewrite cell_set_error. by case_decide. Qed.
Lemma handlers_set_unregParentFunc i u j s :
  __doneHandlers (cell (set_unregParentFunc i u s) j) = __doneHandlers (cell s j).
Proof. rewrite cell_set_unregParentFunc. by case_decide. Qed.
Lemma unreg_set_error i e j s :
  __unregParentFunc (cell (set_error i e s) j) = __unregParentFunc (cell s j).
Proof. rewrite cell_set_error. by case_decide. Qed.
Lemma unreg_set_doneHandlers i hs j s :
  __unregParentFunc (cell (set_doneHandlers i hs s) j) = __unregParentFunc (cell s j).
Proof. rewrite cell_set_doneHandlers. by case_decide. Qed.
Lemma unreg_callUnreg u j s :
  __unregParentFunc (cell (callUnreg u s) j) = __unregParentFunc (cell s j).
Proof. destruct u; [done | apply unreg_set_doneHandlers]. Qed.

Lemma cell_fresh_out s i : length (cells s) ≤ i → cell s i = freshState.
Proof. intros H. unfold cell. by rewrite lookup_ge_None_2. Qed.

(** ** A handler call is a sequence of writes *)

Lemma callUnreg_rtc u s : rtc prim s (callUnreg u s).
Proof.
  destruct u as [|i sym]; simpl; [done |].
  apply rtc_once, prim_handlers, sublist_filter.
Qed.

Section Calls.
Variable call : handler → store → outcome unit.
Hypothesis call_rtc : ∀ h s, after (call h s) (rtc prim s).

Lemma runHandlers_rtc hs s : after (runHandlers call hs s) (rtc prim s).
Proof.
  revert s. induction hs as [|h hs IH]; intros s; simpl; [done |].
  specialize (call_rtc h s). destruct (call h s) as [[] s'| s' |]; simpl in *; try done.
  specialize (IH s'). destruct (runHandlers call hs s'); simpl in *; try done; by etrans.
Qed.

Lemma symCancelFunc_rtc i err s : after (symCancelFunc call i err s) (rtc prim s).
Proof.
  unfold symCancelFunc.
  destruct (truthy err) eqn:Ht; simpl; [|done].
  destruct (is_null (__error (cell s i))) eqn:Hn; simpl; [|done].
  assert (Hs1 : rtc prim s (set_error i err s)) by by apply rtc_once, prim_error.
  pose proof (runHandlers_rtc (map snd (__doneHandlers (cell (set_error i err s) i)))
                (set_error i err s)) as Hr.
  destruct (runHandlers call _ _) as [[] s2| s2 |]; simpl in *; try done; [| by etrans].
  assert (Hs3 : rtc prim s2 (set_doneHandlers i [] s2))
    by apply rtc_once, prim_handlers, sublist_nil_l.
  destruct (__unregParentFunc (cell (set_doneHandlers i [] s2) i)) as [u|]; simpl.
  - etrans; [exact Hs1 |]. etrans; [exact Hr |]. etrans; [exact Hs3 |].
    etrans; [apply callUnreg_rtc |]. apply rtc_once, prim_unreg.
  - etrans; [exact Hs1 |]. by etrans.
Qed.
End Calls.

Lemma callHandler_rtc n h s : after (callHandler n h s) (rtc prim s).
Proof.
  revert h s. induction n as [|n IH]; intros h s; simpl; [done |].
  destruct h; simpl.
  - apply rtc_once, prim_trace.
  - apply callUnreg_rtc.
  - by apply symCancelFunc_rtc.
  - apply rtc_once, prim_settle.
  - pose proof (symCancelFunc_rtc (callHandler n) IH child
        (error (set_unregParentFunc child None s) parentCtx)
        (set_unregParentFunc child None s)) as H.
    destruct (symCancelFunc _ _ _ _); simpl in *; try done;
      (etrans; [apply rtc_once, prim_unreg | exact H]).
  - apply rtc_once, prim_settle.
Qed.

(** ** Errors stay; fuel *)

Lemma prim_keeps s s' : prim s s' → keeps s s'.
Proof.
  destruct 1 as [i e s Hn Ht|i hs s _|i s|k s|p b v s]; split; try done.
  - apply length_alter.
  - intros j Hj. rewrite error_set_error. case_decide as Hd; [|done].
    destruct Hd as [-> _]. congruence.
  - apply length_alter.
  - intros j _. apply error_set_doneHandlers.
  - apply length_alter.
  - intros j _. apply error_set_unregParentFunc.
  - unfold settle. by destruct (promises s !! p) as [[[| |] ? ?]|].
  - intros j _. by rewrite cell_settle.
Qed.

Lemma rtc_keeps s s' : rtc prim s s' → keeps s s'.
Proof.
  induction 1 as [s|s t u Hst _ [IHl IHe]]; [done |].
  destruct (prim_keeps _ _ Hst) as [Hl He]. split; [congruence |].
  intros j Hj. rewrite IHe; [by apply He |]. by rewrite He.
Qed.

Lemma filter_alter_le {A} (P : A → Prop) `{!∀ x, Decision (P x)} (f : A → A) i (l : list A) :
  (∀ x, P (f x) → P x) → length (filter P (alter f i l)) ≤ length (filter P l).
Proof.
  intros Hf. revert i. induction l as [|x l IH]; intros [|i]; simpl; try done.
  - rewrite !filter_cons. destruct (decide (P (f x))), (decide (P x)); simpl; try lia.
    naive_solver.
  - rewrite !filter_cons. specialize (IH i). unfold alter in IH.
    destruct (decide (P x)); simpl; lia.
Qed.

Lemma filter_alter_lt {A} (P : A → Prop) `{!∀ x, Decision (P x)} (f : A → A) i (l : list A) x :
  l !! i = Some x → P x → ¬ P (f x) →
  length (filter P (alter f i l)) < length (filter P l).
Proof.
  revert i. induction l as [|y l IH]; intros [|i] Hi Hx Hfx; simpl in *; try done.
  - simplify_eq. rewrite !filter_cons. rewrite decide_False by done.
    rewrite decide_True by done. simpl. lia.
  - rewrite !filter_cons. specialize (IH i Hi Hx Hfx). unfold alter in IH.
    destruct (decide (P y)); simpl; lia.
Qed.

Lemma prim_actives s s' : prim s s' → actives s' ≤ actives s.
Proof.
  destruct 1 as [i e s Hn Ht|i hs s _|i s|k s|p b v s]; unfold actives; simpl;
    try (apply filter_alter_le; simpl; by intros []); try done.
  - apply filter_alter_le; simpl. intros [] ?; simplify_eq/=.
  - unfold settle. by destruct (promises s !! p) as [[[| |] ? ?]|].
Qed.

Lemma rtc_actives s s' : rtc prim s s' → actives s' ≤ actives s.
Proof. induction 1 as [|s t u H%prim_actives _ IH]; lia. Qed.

Lemma set_error_actives i e s :
  i < length (cells s) → is_null (__error (cell s i)) = true → truthy e = true →
  actives (set_error i e s) < actives s.
Proof.
  intros Hi Hn Ht. unfold actives; simpl.
  destruct (lookup_lt_is_Some_2 _ _ Hi) as [st Hst].
  eapply filter_alter_lt; [exact Hst | |]; unfold cell in Hn; rewrite Hst in Hn; simpl in *.
  - by destruct (__error st).
  - by destruct e.
Qed.

Section Total.
Variable call : handler → store → outcome unit.
Variable n : nat.
Hypothesis call_rtc : ∀ h s, after (call h s) (rtc prim s).
Hypothesis call_total : ∀ h s, actives s < n → call h s ≠ OutOfFuel.

Lemma runHandlers_total hs s : actives s < n → runHandlers call hs s ≠ OutOfFuel.
Proof.
  revert s. induction hs as [|h hs IH]; intros s Hs; simpl; [done |].
  pose proof (call_rtc h s) as Hr. pose proof (call_total h s Hs) as Ht.
  destruct (call h s) as [[] s'| s' |]; simpl in *; try done.
  apply IH. apply rtc_actives in Hr. lia.
Qed.

Lemma symCancelFunc_total i err s :
  actives s < S n → symCancelFunc call i err s ≠ OutOfFuel.
Proof.
  intros Hs. unfold symCancelFunc.
  destruct (truthy err) eqn:Ht; simpl; [|done].
  destruct (is_null (__error (cell s i))) eqn:Hn; simpl; [|done].
  destruct (decide (i < length (cells s))) as [Hi|Hi].
  - pose proof (set_error_actives i err s Hi Hn Ht) as Hlt.
    pose proof (runHandlers_total (map snd (__doneHandlers (cell (set_error i err s) i)))
                  (set_error i err s) ltac:(lia)) as Hr.
    destruct (runHandlers call _ _) as [[] s2| s2 |]; try done.
    by destruct (__unregParentFunc _).
  - rewrite (cell_fresh_out (set_error i err s) i)
      by (simpl; rewrite length_alter; lia).
    simpl. by destruct (__unregParentFunc _).
Qed.
End Total.

Lemma callHandler_total n h s : actives s < n → callHandler n h s ≠ OutOfFuel.
Proof.
  revert h s. induction n as [|n IH]; intros h s Hs; [lia |].
  destruct h; simpl; try done.
  - apply symCancelFunc_total with (n := n); auto using callHandler_rtc.
  - apply symCancelFunc_total with (n := n); auto using callHandler_rtc.
    pose proof (prim_actives _ _ (prim_unreg child s)). lia.
Qed.

Lemma actives_le_length s : actives s ≤ length (cells s).
Proof. apply length_filter. Qed.

(** More fuel does not change a result. *)
Section Mono.
Variables call call' : handler → store → outcome unit.
Hypothesis call_mono : ∀ h s, call h s ≠ OutOfFuel → call' h s = call h s.

Lemma runHandlers_mono hs s :
  runHandlers call hs s ≠ OutOfFuel → runHandlers call' hs s = runHandlers call hs s.
Proof.
  revert s. induction hs as [|h hs IH]; intros s H; simpl in *; [done |].
  rewrite call_mono; [| by destruct (call h s)].
  destruct (call h s); auto.
Qed.

Lemma symCancelFunc_mono i err s :
  symCancelFunc call i err s ≠ OutOfFuel →
  symCancelFunc call' i err s = symCancelFunc call i err s.
Proof.
  unfold symCancelFunc. intros H.
  destruct (negb (truthy err)); [done |].
  destruct (negb (is_null _)); [done |].
  rewrite runHandlers_mono; [done |]. by destruct (runHandlers call _ _).
Qed.
End Mono.

Lemma callHandler_S n h s :
  callHandler n h s ≠ OutOfFuel → callHandler (S n) h s = callHandler n h s.
Proof.
  revert h s. induction n as [|n IH]; intros h s H; [done |].
  destruct h; try done.
  - change (symCancelFunc (callHandler (S n)) node (VBool true) s =
            symCancelFunc (callHandler n) node (VBool true) s).
    by apply symCancelFunc_mono.
  - cbn [callHandler]. cbv zeta. apply symCancelFunc_mono; [apply IH | exact H].
Qed.

Lemma callHandler_mono n m h s :
  n ≤ m → callHandler n h s ≠ OutOfFuel → callHandler m h s = callHandler n h s.
Proof.
  induction 1 as [|m _ IH]; intros H; [done |].
  rewrite callHandler_S; rewrite IH; done.
Qed.

(** ** The cases of [doneHandler] and of the transition function *)

Lemma error_owner s c :
  error s c = match owner c with Some i => __error (cell s i) | None => VNull end.
Proof. induction c; simpl; auto. Qed.

Lemma owner_in n c i : ctx_in n c → owner c = Some i → i < n.
Proof. induction c; simpl; intros; simplify_eq; tauto. Qed.

Lemma doneHandler_active fuel c f s :
  error s c = VNull →
  doneHandler fuel c f s =
    match owner c with
    | Some i => Ok (Unreg i (nextSym s)) (register i f s)
    | None => Ok Noop s
    end.
Proof.
  induction c; simpl; intros H; auto.
  by rewrite H.
Qed.

Lemma doneHandler_done fuel c f s :
  is_null (error s c) = false →
  doneHandler fuel c f s = obind (callHandler fuel f s) (λ _ s', Ok Noop s').
Proof.
  induction c; simpl; intros H; auto; [done |].
  by rewrite H.
Qed.

Lemma cell_alloc_old s j :
  j < length (cells s) → cell (with_cells (λ cs, cs ++ [freshState]) s) j = cell s j.
Proof. intros H. unfold cell; simpl. by rewrite lookup_app_l. Qed.

Lemma cell_alloc_new s :
  cell (with_cells (λ cs, cs ++ [freshState]) s) (length (cells s)) = freshState.
Proof. unfold cell; simpl. by rewrite list_lookup_middle. Qed.

Lemma cell_register_ne i f s j : i ≠ j → cell (register i f s) j = cell s j.
Proof.
  intros H. unfold register, set_doneHandlers. rewrite cell_alter.
  rewrite decide_False; [done | tauto].
Qed.

Lemma error_register i f s j : __error (cell (register i f s) j) = __error (cell s j).
Proof. unfold register. by rewrite error_set_doneHandlers. Qed.

Lemma symCancelFunc_active call i err s :
  truthy err = true → is_null (__error (cell s i)) = true →
  symCancelFunc call i err s =
    match runHandlers call (map snd (__doneHandlers (cell s i))) (set_error i err s) with
    | Ok _ s2 =>
        let s3 := set_doneHandlers i [] s2 in
        match __unregParentFunc (cell s3 i) with
        | Some u => Ok tt (set_unregParentFunc i None (callUnreg u s3))
        | None => Ok tt s3
        end
    | r => r
    end.
Proof.
  intros Ht Hn. unfold symCancelFunc. rewrite Ht, Hn. simpl.
  replace (__doneHandlers (cell (set_error i err s) i)) with (__doneHandlers (cell s i)); [done |].
  unfold set_error. rewrite cell_alter. by case_decide.
Qed.

Lemma symCancelFunc_done call i err s :
  truthy err = true → is_null (__error (cell s i)) = false →
  symCancelFunc call i err s = Ok tt s.
Proof. intros Ht Hn. unfold symCancelFunc. by rewrite Ht, Hn. Qed.

Lemma symCancelFunc_absent call i err s :
  truthy err = false → symCancelFunc call i err s = Throw s.
Proof. intros Ht. unfold symCancelFunc. by rewrite Ht. Qed.

Lemma timers_callUnreg u s : timers (callUnreg u s) = timers s.
Proof. by destruct u. Qed.

Lemma truthy_not_null e : truthy e = true → is_null e = false.
Proof. by destruct e. Qed.

Lemma callHandler_keeps n h s : after (callHandler n h s) (keeps s).
Proof.
  pose proof (callHandler_rtc n h s) as H.
  destruct (callHandler n h s); simpl in *; auto using rtc_keeps.
Qed.

Lemma symCancelFunc_sets_error call i err s :
  (∀ h s, after (call h s) (rtc prim s)) →
  i < length (cells s) → truthy err = true → is_null (__error (cell s i)) = true →
  after (symCancelFunc call i err s) (λ s', __error (cell s' i) = err).
Proof.
  intros Hcall Hi Ht Hn. rewrite symCancelFunc_active by done.
  pose proof (runHandlers_rtc call Hcall (map snd (__doneHandlers (cell s i)))
                (set_error i err s)) as Hr.
  assert (He : __error (cell (set_error i err s) i) = err).
  { rewrite error_set_error. by rewrite decide_True. }
  destruct (runHandlers call _ _) as [[] s2|s2|]; simpl in *; [| |done].
  - apply rtc_keeps in Hr as [_ Hk].
    assert (__error (cell (set_doneHandlers i [] s2) i) = err) as He3.
    { rewrite error_set_doneHandlers, Hk; rewrite He; [done | by apply truthy_not_null]. }
    destruct (__unregParentFunc _); simpl; [|done].
    by rewrite error_set_unregParentFunc, error_callUnreg.
  - apply rtc_keeps in Hr as [_ Hk]. rewrite Hk; rewrite He; [done | by apply truthy_not_null].
Qed.

Lemma cancel_total i err s : cancel i err s ≠ OutOfFuel.
Proof.
  unfold cancel, fuelFor. apply symCancelFunc_total with (n := S (length (cells s))).
  - apply callHandler_rtc.
  - intros h s' Hs'. apply callHandler_total. lia.
  - pose proof (actives_le_length s). lia.
Qed.

Lemma cancelTrigger_error fuel i s :
  i < length (cells s) → is_null (__error (cell s i)) = true →
  after (cancelTrigger fuel i s) (λ s', __error (cell s' i) = VBool true).
Proof.
  intros Hi Hn. unfold cancelTrigger.
  apply symCancelFunc_sets_error; auto using callHandler_rtc.
Qed.

(** ** A node with an error holds no handlers *)

Lemma handlers_filter_cell u s j :
  __doneHandlers (cell s j) = [] → __doneHandlers (cell (callUnreg u s) j) = [].
Proof.
  destruct u as [|i sym]; simpl; [done |]. intros H.
  rewrite cell_set_doneHandlers. case_decide as Hd; [|done].
  destruct Hd as [-> _]. simpl. by rewrite H.
Qed.

Lemma dme_callUnreg D u s : doneMeansEmptyExcept D s → doneMeansEmptyExcept D (callUnreg u s).
Proof.
  intros H i Hi. rewrite error_callUnreg. intros Hn.
  apply handlers_filter_cell. by apply H.
Qed.

Lemma dme_set_unreg D i u s :
  doneMeansEmptyExcept D s → doneMeansEmptyExcept D (set_unregParentFunc i u s).
Proof.
  intros H j Hj. rewrite error_set_unregParentFunc, handlers_set_unregParentFunc. by apply H.
Qed.

Lemma dme_same_cells D s s' :
  cells s' = cells s → doneMeansEmptyExcept D s → doneMeansEmptyExcept D s'.
Proof. intros Hc H j. unfold cell. rewrite Hc. apply H. Qed.

Lemma cells_settle p b v s : cells (settle p b v s) = cells s.
Proof. unfold settle. by destruct (promises s !! p) as [[[| |] ? ?]|]. Qed.

Section Firing.
Variable call : handler → store → outcome unit.
Hypothesis call_dme :
  ∀ D h s, doneMeansEmptyExcept D s → afterOk (call h s) (doneMeansEmptyExcept D).

Lemma runHandlers_dme D hs s :
  doneMeansEmptyExcept D s → afterOk (runHandlers call hs s) (doneMeansEmptyExcept D).
Proof.
  revert s. induction hs as [|h hs IH]; intros s Hs; simpl; [done |].
  specialize (call_dme D h s Hs). destruct (call h s) as [[] s'|s'|]; simpl in *; auto.
Qed.

Lemma symCancelFunc_dme D i err s :
  doneMeansEmptyExcept D s →
  afterOk (symCancelFunc call i err s) (doneMeansEmptyExcept D).
Proof.
  intros Hs. unfold symCancelFunc.
  destruct (truthy err) eqn:Ht; simpl; [|done].
  destruct (is_null (__error (cell s i))) eqn:Hn; simpl; [|done].
  assert (Hs1 : doneMeansEmptyExcept (i :: D) (set_error i err s)).
  { intros j [Hji HjD]%not_elem_of_cons. rewrite cell_set_error.
    rewrite decide_False; [by apply Hs |]. by intros [-> _]. }
  pose proof (runHandlers_dme (i :: D)
                (map snd (__doneHandlers (cell (set_error i err s) i))) _ Hs1) as Hr.
  destruct (runHandlers call _ _) as [[] s2|s2|]; simpl in *; try done.
  assert (Hs3 : doneMeansEmptyExcept D (set_doneHandlers i [] s2)).
  { intros j Hj. rewrite cell_set_doneHandlers. case_decide as Hd; simpl; [done |].
    destruct (decide (i = j)) as [->|Hne].
    - intros _. rewrite cell_fresh_out; [done | lia].
    - apply Hr. by apply not_elem_of_cons. }
  destruct (__unregParentFunc _); simpl; [|done].
  by apply dme_set_unreg, dme_callUnreg.
Qed.
End Firing.

Lemma callHandler_dme n : ∀ D h s,
  doneMeansEmptyExcept D s → afterOk (callHandler n h s) (doneMeansEmptyExcept D).
Proof.
  induction n as [|n IH]; intros D h s Hs; simpl; [done |].
  destruct h; simpl.
  - eapply dme_same_cells; [reflexivity | done].
  - by apply dme_callUnreg.
  - by apply symCancelFunc_dme.
  - eapply dme_same_cells; [apply cells_settle | done].
  - apply symCancelFunc_dme; [done |]. by apply dme_set_unreg.
  - eapply dme_same_cells; [apply cells_settle | done].
Qed.

Lemma handlers_register i f s j :
  __doneHandlers (cell (register i f s) j) =
    if decide (i = j ∧ j < length (cells s))
    then __doneHandlers (cell s j) ++ [(nextSym s, f)]
    else __doneHandlers (cell s j).
Proof.
  unfold register. rewrite cell_set_doneHandlers.
  change (cells (with_nextSym (S (nextSym s)) s)) with (cells s).
  change (cell (with_nextSym (S (nextSym s)) s) j) with (cell s j).
  case_decide as Hd; [destruct Hd as [-> _] |]; done.
Qed.

Lemma dme_register D i f s :
  is_null (__error (cell s i)) = true →
  doneMeansEmptyExcept D s → doneMeansEmptyExcept D (register i f s).
Proof.
  intros Hn Hs j Hj. rewrite error_register, handlers_register.
  intros He. case_decide as Hd; [|by apply Hs].
  destruct Hd as [-> _]. congruence.
Qed.

Lemma doneHandler_dme fuel c f s :
  doneMeansEmpty s → afterOk (doneHandler fuel c f s) doneMeansEmpty.
Proof.
  intros Hs. destruct (is_null (error s c)) eqn:Hn.
  - assert (error s c = VNull) as He by (by destruct (error s c)).
    rewrite doneHandler_active by done. rewrite error_owner in Hn.
    destruct (owner c); simpl; [|done]. by apply dme_register.
  - rewrite doneHandler_done by done.
    pose proof (callHandler_dme fuel [] f s Hs) as H.
    by destruct (callHandler fuel f s).
Qed.

Lemma dme_alloc s :
  doneMeansEmpty s → doneMeansEmpty (with_cells (λ cs, cs ++ [freshState]) s).
Proof.
  intros Hs j _. destruct (decide (j < length (cells s))) as [Hj|Hj].
  - rewrite cell_alloc_old by done. apply Hs, not_elem_of_nil.
  - destruct (decide (j = length (cells s))) as [->|Hne].
    + by rewrite cell_alloc_new.
    + rewrite cell_fresh_out; [done |]. simpl. rewrite length_app. simpl. lia.
Qed.

Lemma newCancelContext_dme fuel parent dl now s :
  doneMeansEmpty s → afterOk (newCancelContext fuel parent dl now s) doneMeansEmpty.
Proof.
  intros Hs. unfold newCancelContext.
  pose proof (doneHandler_dme fuel parent
    (HPropagate (length (cells s)) parent) _ (dme_alloc s Hs)) as H1.
  destruct (doneHandler _ _ _ _) as [u s1|s1|]; simpl in *; try done.
  assert (H2 : doneMeansEmpty (set_unregParentFunc (length (cells s)) (Some u) s1))
    by by apply dme_set_unreg.
  destruct dl as [d|]; [|done].
  destruct (is_null _); [|done].
  destruct (d - now <=? 0)%Z.
  - pose proof (symCancelFunc_dme (callHandler fuel) (callHandler_dme fuel) []
       (length (cells s)) VDeadlineError _ H2) as H3.
    by destruct (symCancelFunc _ _ _ _).
  - simpl. eapply dme_same_cells; [reflexivity | done].
Qed.

(** ** No call throws the misuse error *)

Lemma handlers_set_doneHandlers i hs j s :
  __doneHandlers (cell (set_doneHandlers i hs s) j) =
    if decide (i = j ∧ j < length (cells s)) then hs else __doneHandlers (cell s j).
Proof. rewrite cell_set_doneHandlers. by case_decide. Qed.

Lemma prim_handlers_subseteq s s' j :
  prim s s' → __doneHandlers (cell s' j) ⊆ __doneHandlers (cell s j).
Proof.
  destruct 1 as [i e s Hn Ht|i hs s Hsub|i s|k s|p b v s].
  - by rewrite handlers_set_error.
  - rewrite handlers_set_doneHandlers. case_decide as Hd; [|done].
    destruct Hd as [-> _]. by apply sublist_subseteq.
  - by rewrite handlers_set_unregParentFunc.
  - done.
  - by rewrite cell_settle.
Qed.

Lemma prim_subscribedOnOwner s s' : prim s s' → subscribedOnOwner s → subscribedOnOwner s'.
Proof.
  intros Hp H j x Hx. apply H. by eapply prim_handlers_subseteq.
Qed.

Lemma prim_errorsTruthy s s' : prim s s' → errorsTruthy s → errorsTruthy s'.
Proof.
  destruct 1 as [i e s Hn Ht|i hs s Hsub|i s|k s|p b v s]; intros H j.
  - rewrite error_set_error. case_decide; [done | apply H].
  - rewrite error_set_doneHandlers. apply H.
  - rewrite error_set_unregParentFunc. apply H.
  - apply H.
  - rewrite cell_settle. apply H.
Qed.

Lemma rtc_subscribedOnOwner s s' : rtc prim s s' → subscribedOnOwner s → subscribedOnOwner s'.
Proof. induction 1; eauto using prim_subscribedOnOwner. Qed.
Lemma rtc_errorsTruthy s s' : rtc prim s s' → errorsTruthy s → errorsTruthy s'.
Proof. induction 1; eauto using prim_errorsTruthy. Qed.

Lemma safe_keeps s s' h : keeps s s' → safe s h → safe s' h.
Proof.
  intros [_ Hk]. destruct h; simpl; try done.
  rewrite !error_owner. destruct (owner parentCtx) as [j|]; [|done].
  intros Ht. rewrite Hk; [done |]. by apply truthy_not_null.
Qed.

Section NoThrow.
Variable call : handler → store → outcome unit.
Hypothesis call_rtc : ∀ h s, after (call h s) (rtc prim s).
Hypothesis call_nothrow :
  ∀ h s, subscribedOnOwner s → errorsTruthy s → safe s h → notThrow (call h s).

Lemma runHandlers_nothrow hs s :
  subscribedOnOwner s → errorsTruthy s → Forall (safe s) hs →
  notThrow (runHandlers call hs s).
Proof.
  revert s. induction hs as [|h hs IH]; intros s HW HT Hsafe; simpl; [done |].
  apply Forall_cons in Hsafe as [Hh Hhs].
  pose proof (call_rtc h s) as Hr. pose proof (call_nothrow h s HW HT Hh) as Hn.
  destruct (call h s) as [[] s'|s'|]; simpl in *; try done.
  apply IH; eauto using rtc_subscribedOnOwner, rtc_errorsTruthy.
  eapply Forall_impl; [exact Hhs |]. intros h'. by apply safe_keeps, rtc_keeps.
Qed.

Lemma symCancelFunc_nothrow i err s :
  subscribedOnOwner s → errorsTruthy s → truthy err = true →
  notThrow (symCancelFunc call i err s).
Proof.
  intros HW HT Ht. unfold symCancelFunc. rewrite Ht. simpl.
  destruct (is_null (__error (cell s i))) eqn:Hn; simpl; [|done].
  assert (Hp : prim s (set_error i err s)) by by constructor.
  pose proof (runHandlers_nothrow (map snd (__doneHandlers (cell (set_error i err s) i)))
    (set_error i err s) (prim_subscribedOnOwner _ _ Hp HW) (prim_errorsTruthy _ _ Hp HT)) as Hr.
  destruct (runHandlers call _ _) as [[] s2|s2|]; simpl in *; try done.
  - by destruct (__unregParentFunc _).
  - apply Hr. apply Forall_forall. intros h [x [-> Hx]]%list_elem_of_fmap.
    assert (Hi : i < length (cells s)).
    { destruct (decide (i < length (cells s))); [done |].
      rewrite cell_fresh_out in Hx; [by apply elem_of_nil in Hx |].
      rewrite length_set_error. lia. }
    rewrite handlers_set_error in Hx. apply HW in Hx.
    destruct x as [sym [| | | |c p|]]; simpl in *; try done.
    rewrite error_owner, Hx, error_set_error. by rewrite decide_True.
Qed.
End NoThrow.

Lemma callHandler_nothrow n : ∀ h s,
  subscribedOnOwner s → errorsTruthy s → safe s h → notThrow (callHandler n h s).
Proof.
  induction n as [|n IH]; intros h s HW HT Hs; simpl; [done |].
  destruct h; simpl; try done.
  - apply symCancelFunc_nothrow; auto using callHandler_rtc.
  - assert (Hp : prim s (set_unregParentFunc child None s)) by constructor.
    apply symCancelFunc_nothrow; eauto using callHandler_rtc,
      prim_subscribedOnOwner, prim_errorsTruthy.
    eapply (safe_keeps _ _ (HPropagate child parentCtx)); [|exact Hs].
    by apply prim_keeps.
Qed.

(** ** The calls of the interface *)

Lemma settled_intro {A} (o : outcome A) Q :
  o ≠ OutOfFuel → notThrow o → afterOk o Q → settled o Q.
Proof. by destruct o. Qed.

Lemma settled_obind {A B} (o : outcome A) (r : A → B) Q :
  settled o Q → settled (obind o (λ a s', Ok (r a) s')) Q.
Proof. by destruct o. Qed.

Lemma rtc_wo s s' : rtc prim s s' → wo s → wo s'.
Proof. intros H [? ?]. split; eauto using rtc_subscribedOnOwner, rtc_errorsTruthy. Qed.

Lemma symCancelFunc_good fuel i err s :
  actives s < S fuel → truthy err = true → good s →
  settled (symCancelFunc (callHandler fuel) i err s) good.
Proof.
  intros Hf Ht (Hd & HW & HT). apply settled_intro.
  - apply symCancelFunc_total with (n := fuel); auto using callHandler_rtc, callHandler_total.
  - apply symCancelFunc_nothrow; auto using callHandler_rtc, callHandler_nothrow.
  - pose proof (symCancelFunc_rtc (callHandler fuel) (callHandler_rtc fuel) i err s) as Hr.
    pose proof (symCancelFunc_dme (callHandler fuel) (callHandler_dme fuel) [] i err s Hd) as Hi.
    destruct (symCancelFunc _ _ _ _); simpl in *; try done.
    split; [done |]. by apply (rtc_wo s).
Qed.

Lemma callHandler_good fuel f s :
  actives s < fuel → safe s f → good s → settled (callHandler fuel f s) good.
Proof.
  intros Hf Hs (Hd & HW & HT). apply settled_intro.
  - by apply callHandler_total.
  - by apply callHandler_nothrow.
  - pose proof (callHandler_rtc fuel f s) as Hr.
    pose proof (callHandler_dme fuel [] f s Hd) as Hi.
    destruct (callHandler _ _ _); simpl in *; try done.
    split; [done |]. by apply (rtc_wo s).
Qed.

Lemma subscribedOnOwner_register i f s :
  okHandler i f → subscribedOnOwner s → subscribedOnOwner (register i f s).
Proof.
  intros Hf H j x. rewrite handlers_register. case_decide as Hd; [|apply H].
  destruct Hd as [-> _]. intros [Hx| ->%list_elem_of_singleton]%elem_of_app; [by apply H | done].
Qed.

Lemma errorsTruthy_register i f s : errorsTruthy s → errorsTruthy (register i f s).
Proof. intros H j. rewrite error_register. apply H. Qed.

Lemma doneHandler_good fuel c f s :
  actives s < fuel →
  (∀ j, owner c = Some j → okHandler j f) →
  (is_null (error s c) = false → safe s f) →
  good s → settled (doneHandler fuel c f s) good.
Proof.
  intros Hf Hok Hsafe (Hd & HW & HT). destruct (is_null (error s c)) eqn:Hn.
  - assert (error s c = VNull) as He by (by destruct (error s c)).
    rewrite doneHandler_active by done. rewrite error_owner in Hn.
    destruct (owner c) as [j|]; simpl; [|done].
    split; [by apply dme_register |].
    split; [apply subscribedOnOwner_register; auto | by apply errorsTruthy_register].
  - rewrite doneHandler_done by done.
    pose proof (callHandler_good fuel f s Hf (Hsafe eq_refl) (conj Hd (conj HW HT))) as H.
    by destruct (callHandler fuel f s).
Qed.

Lemma good_callUnreg u s : good s → good (callUnreg u s).
Proof.
  intros (Hd & HW & HT). split; [by apply dme_callUnreg |].
  by apply (rtc_wo s); [apply callUnreg_rtc |].
Qed.

Lemma good_set_unreg i u s : good s → good (set_unregParentFunc i u s).
Proof.
  intros (Hd & HW & HT). split; [by apply dme_set_unreg |]. split.
  - intros j x. rewrite handlers_set_unregParentFunc. apply HW.
  - intros j. rewrite error_set_unregParentFunc. apply HT.
Qed.

Lemma cell_alloc s j :
  cell (with_cells (λ cs, cs ++ [freshState]) s) j =
    if decide (j < length (cells s)) then cell s j else freshState.
Proof.
  case_decide as Hj; [by apply cell_alloc_old |].
  destruct (decide (j = length (cells s))) as [->|Hne]; [apply cell_alloc_new |].
  apply cell_fresh_out. simpl. rewrite length_app. simpl. lia.
Qed.

Lemma good_alloc s : good s → good (with_cells (λ cs, cs ++ [freshState]) s).
Proof.
  intros (Hd & HW & HT). split; [by apply dme_alloc |]. split.
  - intros j x. rewrite cell_alloc. case_decide; [apply HW | by intros ?%elem_of_nil].
  - intros j. rewrite cell_alloc. case_decide; [apply HT | done].
Qed.

Lemma actives_alloc s :
  actives (with_cells (λ cs, cs ++ [freshState]) s) = S (actives s).
Proof.
  unfold actives; simpl. rewrite filter_app, length_app.
  rewrite filter_cons_True by done. simpl. lia.
Qed.

Lemma actives_register i f s : actives (register i f s) ≤ actives s.
Proof. unfold actives; simpl. apply filter_alter_le. by intros []. Qed.

Lemma actives_set_unreg i u s : actives (set_unregParentFunc i u s) ≤ actives s.
Proof. unfold actives; simpl. apply filter_alter_le. by intros []. Qed.

Lemma doneHandler_actives fuel c f s :
  after (doneHandler fuel c f s) (λ s', actives s' ≤ actives s).
Proof.
  destruct (is_null (error s c)) eqn:Hn.
  - assert (error s c = VNull) as He by (by destruct (error s c)).
    rewrite doneHandler_active by done.
    destruct (owner c); simpl; [apply actives_register | done].
  - rewrite doneHandler_done by done.
    pose proof (callHandler_rtc fuel f s) as H.
    destruct (callHandler fuel f s); simpl in *; auto using rtc_actives.
Qed.

Lemma errorsTruthy_error s c :
  errorsTruthy s → is_null (error s c) = false → truthy (error s c) = true.
Proof. rewrite error_owner. destruct (owner c); [auto | done]. Qed.

Lemma newCancelContext_good fuel parent dl now s :
  S (actives s) < fuel → good s →
  settled (newCancelContext fuel parent dl now s) good.
Proof.
  intros Hf Hg. unfold newCancelContext.
  set (i := length (cells s)).
  set (s0 := with_cells (λ cs, cs ++ [freshState]) s).
  assert (Hg0 : good s0) by by apply good_alloc.
  assert (Ha0 : actives s0 < fuel) by (unfold s0; rewrite actives_alloc; lia).
  assert (H1 : settled (doneHandler fuel parent (HPropagate i parent) s0) good).
  { apply doneHandler_good; try done.
    intros Hn. apply errorsTruthy_error; [apply Hg0 | done]. }
  pose proof (doneHandler_actives fuel parent (HPropagate i parent) s0) as Hact.
  destruct (doneHandler fuel parent (HPropagate i parent) s0) as [u s1|s1|];
    simpl in *; try done.
  set (s2 := set_unregParentFunc i (Some u) s1).
  assert (Hg2 : good s2) by by apply good_set_unreg.
  destruct dl as [d|]; [|done].
  destruct (is_null _); [|done].
  destruct (d - now <=? 0)%Z; [|by destruct Hg2 as (? & ? & ?)].
  assert (settled (symCancelFunc (callHandler fuel) i VDeadlineError s2) good) as H3.
  { apply symCancelFunc_good; try done.
    pose proof (actives_set_unreg i (Some u) s1). unfold s2. lia. }
  by destruct (symCancelFunc _ _ _ _).
Qed.

Lemma exec_good a s : good s → legal a → settled (exec a s) good.
Proof.
  intros Hg Hl. pose proof (actives_le_length s) as Hlen.
  destruct a as [i|i|c f|u|p dl now]; unfold exec, fuelFor.
  - apply settled_obind. apply symCancelFunc_good; [lia | done | done].
  - apply settled_obind. apply symCancelFunc_good; [lia | done | done].
  - apply settled_obind. apply doneHandler_good; [lia | | | done].
    + intros j _. by destruct f.
    + intros _. by destruct f.
  - by apply good_callUnreg.
  - apply settled_obind. apply newCancelContext_good; [lia | done].
Qed.

Lemma good_emptyStore : good emptyStore.
Proof.
  split; [|split]; intros j; rewrite cell_fresh_out by (simpl; lia); try done.
  by intros x ?%elem_of_nil.
Qed.

Lemma reachable_good s : reachable s → good s.
Proof.
  induction 1 as [|a r s s' _ IH Hl He]; [apply good_emptyStore |].
  pose proof (exec_good a s IH Hl) as H. by rewrite He in H.
Qed.

(** ** Propagation to the subscribed nodes *)

Lemma prim_length s s' : prim s s' → length (cells s') = length (cells s).
Proof. intros H. by apply prim_keeps in H as [? _]. Qed.

Lemma prim_unreg_shrinks s s' x :
  prim s s' →
  __unregParentFunc (cell s' x) = __unregParentFunc (cell s x) ∨
  __unregParentFunc (cell s' x) = None.
Proof.
  destruct 1 as [i e s Hn Ht|i hs s Hsub|i s|k s|p b v s].
  - left. apply unreg_set_error.
  - left. apply unreg_set_doneHandlers.
  - rewrite cell_set_unregParentFunc. case_decide; simpl; auto.
  - by left.
  - left. by rewrite cell_settle.
Qed.

Lemma prim_quietStore s s' : prim s s' → quietStore s → quietStore s'.
Proof.
  intros Hp H j x Hx. apply (prim_handlers_subseteq _ _ j Hp) in Hx.
  specialize (H j x Hx). destruct x as [sym h]; destruct h; simpl in *; try done.
  by rewrite (prim_length _ _ Hp).
Qed.

Lemma prim_ownUnreg s s' : prim s s' → ownUnreg s → ownUnreg s'.
Proof.
  intros Hp H x j sym h Hu Hh.
  apply (prim_handlers_subseteq _ _ j Hp) in Hh.
  destruct (prim_unreg_shrinks s s' x Hp) as [Heq|Heq]; [|congruence].
  rewrite Heq in Hu. eauto.
Qed.

Lemma rtc_quietStore s s' : rtc prim s s' → quietStore s → quietStore s'.
Proof. induction 1; eauto using prim_quietStore. Qed.
Lemma rtc_ownUnreg s s' : rtc prim s s' → ownUnreg s → ownUnreg s'.
Proof. induction 1; eauto using prim_ownUnreg. Qed.

Section Pass.
Variable E : jsval.
Hypothesis E_truthy : truthy E = true.

Lemma E_not_null : is_null E = false.
Proof. by apply truthy_not_null. Qed.

Lemma isNull_kept s s' j : cascade E s s' → isNull s j = false → isNull s' j = false.
Proof.
  intros H Hj. unfold isNull in *. destruct (cas_err _ _ _ H j) as [->|[Hn _]]; [done |].
  unfold isNull in Hn. congruence.
Qed.

Lemma cascade_refl s : quietStore s → ownUnreg s → cascade E s s.
Proof. intros Hq Ho. split; auto. intros; congruence. Qed.

Lemma cascade_trans s t u : cascade E s t → cascade E t u → cascade E s u.
Proof.
  intros Hst Htu. split.
  - rewrite (cas_len _ _ _ Htu). apply Hst.
  - intros j. destruct (cas_err _ _ _ Htu j) as [->|[Hn ->]]; [apply Hst |].
    destruct (cas_err _ _ _ Hst j) as [Heq|[Hn' Heq]].
    + right. split; [|done]. unfold isNull in *. congruence.
    + unfold isNull in Hn. rewrite Heq, E_not_null in Hn. done.
  - intros j c He Hs Hu. destruct (isNull t j) eqn:Ht.
    + destruct (cas_edge _ _ _ Hst j c He Ht) as [He'|Hc].
      * by apply (cas_closed _ _ _ Htu j c).
      * by apply (isNull_kept t u).
    + apply (isNull_kept t u); [done |]. by apply (cas_closed _ _ _ Hst j c).
  - intros j c He Hu.
    assert (Ht : isNull t j = true).
    { destruct (isNull t j) eqn:Ht; [done |]. apply (isNull_kept t u) in Ht; [congruence | done]. }
    destruct (cas_edge _ _ _ Hst j c He Ht) as [He'|Hc].
    + by apply (cas_edge _ _ _ Htu).
    + right. by apply (isNull_kept t u).
  - apply Htu.
  - apply Htu.
Qed.

(** Writes that leave every error and every handler list as they are. *)
Lemma cascade_prim_same s s' :
  prim s s' →
  (∀ j, __error (cell s' j) = __error (cell s j)) →
  (∀ j, __doneHandlers (cell s' j) = __doneHandlers (cell s j)) →
  quietStore s → ownUnreg s → cascade E s s'.
Proof.
  intros Hp He Hh Hq Ho. split.
  - by apply prim_length.
  - intros j. left. apply He.
  - intros j c _ Hs Hs'. unfold isNull in *. rewrite He in Hs'. congruence.
  - intros j c [sym [p Hin]] _. left. exists sym, p. by rewrite Hh.
  - by eapply prim_quietStore.
  - by eapply prim_ownUnreg.
Qed.

Lemma legit_kept s s' h : cascade E s s' → legit E s h → legit E s' h.
Proof.
  intros Hc. destruct h as [| | | |c p|]; simpl; try done.
  intros [He Hlt]. split; [|by rewrite (cas_len _ _ _ Hc)].
  rewrite error_owner in *. destruct (owner p) as [j|].
  - destruct (cas_err _ _ _ Hc j) as [->|[Hn _]]; [done |].
    unfold isNull in Hn. rewrite He, E_not_null in Hn. done.
  - rewrite <- He in E_truthy. done.
Qed.

Lemma fired_kept s s' h : cascade E s s' → fired s h → fired s' h.
Proof. intros Hc. destruct h; simpl; try done. by apply isNull_kept. Qed.

Variable call : handler → store → outcome unit.
Hypothesis call_cascade :
  ∀ h s, quietStore s → ownUnreg s → legit E s h →
         cascades E s (call h s) (λ s', fired s' h).

Lemma runHandlers_cascade hs s :
  quietStore s → ownUnreg s → Forall (legit E s) hs →
  cascades E s (runHandlers call hs s) (λ s', Forall (fired s') hs).
Proof.
  revert s. induction hs as [|h hs IH]; intros s Hq Ho Hl; simpl.
  - split; [by apply cascade_refl | constructor].
  - apply Forall_cons in Hl as [Hh Hhs].
    pose proof (call_cascade h s Hq Ho Hh) as Hc.
    destruct (call h s) as [[] s1|s1|]; simpl in *; try done.
    destruct Hc as [Hc Hf].
    assert (Hl1 : Forall (legit E s1) hs).
    { eapply Forall_impl; [exact Hhs |]. intros h'. by apply legit_kept. }
    specialize (IH s1 (cas_quiet _ _ _ Hc) (cas_own _ _ _ Hc) Hl1).
    destruct (runHandlers call hs s1) as [[] s2|s2|]; simpl in *; try done.
    destruct IH as [Hc2 Hf2]. split; [by eapply cascade_trans |].
    constructor; [by eapply fired_kept | done].
Qed.
End Pass.

Lemma handlers_callUnreg u s j :
  __doneHandlers (cell (callUnreg u s) j) =
    match u with
    | Noop => __doneHandlers (cell s j)
    | Unreg i sym =>
        if decide (i = j ∧ j < length (cells s))
        then filter (λ x, x.1 ≠ sym) (__doneHandlers (cell s j))
        else __doneHandlers (cell s j)
    end.
Proof.
  destruct u as [|i sym]; simpl; [done |].
  rewrite handlers_set_doneHandlers. case_decide as Hd; [|done]. by destruct Hd as [-> _].
Qed.

Lemma unreg_in_range s i u : __unregParentFunc (cell s i) = Some u → i < length (cells s).
Proof.
  intros H. destruct (decide (i < length (cells s))); [done |].
  rewrite cell_fresh_out in H by lia. done.
Qed.

Lemma handler_in_range s i x : x ∈ __doneHandlers (cell s i) → i < length (cells s).
Proof.
  intros H. destruct (decide (i < length (cells s))); [done |].
  rewrite cell_fresh_out in H by lia. by apply elem_of_nil in H.
Qed.

Section Transition.
Variable E : jsval.
Hypothesis E_truthy : truthy E = true.
Variable call : handler → store → outcome unit.
Hypothesis call_cascade :
  ∀ h s, quietStore s → ownUnreg s → legit E s h →
         cascades E s (call h s) (λ s', fired s' h).

Lemma finish_rtc i s2 : rtc prim s2 (finish i s2).
Proof.
  unfold finish.
  assert (H3 : rtc prim s2 (set_doneHandlers i [] s2))
    by apply rtc_once, prim_handlers, sublist_nil_l.
  destruct (__unregParentFunc _) as [u|]; [|done].
  etrans; [exact H3 |]. etrans; [apply callUnreg_rtc |]. apply rtc_once, prim_unreg.
Qed.

Lemma error_finish i s2 j : __error (cell (finish i s2) j) = __error (cell s2 j).
Proof.
  unfold finish. destruct (__unregParentFunc _) as [u|].
  - by rewrite error_set_unregParentFunc, error_callUnreg, error_set_doneHandlers.
  - by rewrite error_set_doneHandlers.
Qed.

Lemma edge_finish i s2 j c :
  ownUnreg s2 → j ≠ i → edge s2 j c → edge (finish i s2) j c ∨ c = i.
Proof.
  intros Ho Hji (sym & p & Hin). unfold finish.
  set (s3 := set_doneHandlers i [] s2).
  assert (Ho3 : ownUnreg s3).
  { eapply prim_ownUnreg; [|exact Ho]. apply prim_handlers, sublist_nil_l. }
  assert (Hin3 : (sym, HPropagate c p) ∈ __doneHandlers (cell s3 j)).
  { unfold s3. rewrite handlers_set_doneHandlers. rewrite decide_False; [done |].
    intros [-> _]. done. }
  destruct (__unregParentFunc (cell s3 i)) as [u|] eqn:Hu; [|left; by exists sym, p].
  destruct u as [|j' sym'].
  - left. exists sym, p. by rewrite handlers_set_unregParentFunc.
  - destruct (decide (sym = sym' ∧ j' = j)) as [[-> ->]|Hne].
    + right. destruct (Ho3 i j sym' _ Hu Hin3) as [p' Hp']. by simplify_eq.
    + left. exists sym, p.
      rewrite handlers_set_unregParentFunc, handlers_callUnreg.
      case_decide as Hd; [|done]. destruct Hd as [-> _].
      apply list_elem_of_filter. split; [|done]. simpl. naive_solver.
Qed.

Lemma symCancelFunc_cascade i s :
  quietStore s → ownUnreg s → i < length (cells s) →
  cascades E s (symCancelFunc call i E s) (λ s', isNull s' i = false).
Proof.
  intros Hq Ho Hi.
  destruct (is_null (__error (cell s i))) eqn:Hn; cycle 1.
  { rewrite symCancelFunc_done by done. simpl. split; [by apply cascade_refl | done]. }
  rewrite symCancelFunc_active by done.
  remember (set_error i E s) as s1 eqn:Hs1.
  assert (Hp1 : prim s s1) by (subst s1; by constructor).
  assert (He1 : ∀ j, __error (cell s1 j) = if decide (i = j) then E else __error (cell s j)).
  { intros j. subst s1. rewrite error_set_error.
    destruct (decide (i = j)) as [->|]; [by rewrite decide_True |].
    rewrite decide_False; [done | tauto]. }
  assert (Hh1 : ∀ j, __doneHandlers (cell s1 j) = __doneHandlers (cell s j))
    by (intros j; subst s1; apply handlers_set_error).
  assert (Hl : Forall (legit E s1) (map snd (__doneHandlers (cell s i)))).
  { apply Forall_forall. intros h [x [-> Hx]]%list_elem_of_fmap.
    specialize (Hq i x Hx). destruct x as [sym [| | | |c p|]]; simpl in *; try done.
    destruct Hq as [Hown Hc]. split; [|by rewrite (prim_length _ _ Hp1)].
    rewrite error_owner, Hown, He1. by rewrite decide_True. }
  pose proof (runHandlers_cascade E E_truthy call call_cascade _ s1
                (prim_quietStore _ _ Hp1 Hq) (prim_ownUnreg _ _ Hp1 Ho) Hl) as Hr.
  destruct (runHandlers call _ s1) as [[] s2|s2|]; simpl in *; try done.
  destruct Hr as [Hc Hf]. fold (finish i s2).
  assert (Hret : ∀ o : outcome unit, o = Ok tt (finish i s2) →
            cascades E s o (λ s', isNull s' i = false)); cycle 1.
  { apply Hret. unfold finish. by destruct (__unregParentFunc _). }
  intros o ->. simpl.
  assert (Hi2 : __error (cell s2 i) = E).
  { destruct (cas_err _ _ _ Hc i) as [->|[_ ->]]; [|done]. rewrite He1. by rewrite decide_True. }
  assert (Hnn : ∀ j, isNull s2 j = false → isNull (finish i s2) j = false).
  { intros j. unfold isNull. by rewrite error_finish. }
  assert (Hii : isNull (finish i s2) i = false).
  { apply Hnn. unfold isNull. rewrite Hi2. by apply truthy_not_null. }
  split; [|done]. split.
  - pose proof (rtc_keeps _ _ (finish_rtc i s2)) as [-> _].
    rewrite (cas_len _ _ _ Hc). by apply prim_length.
  - intros j. rewrite error_finish.
    destruct (decide (i = j)) as [<-|Hne].
    + right. by rewrite Hi2.
    + destruct (cas_err _ _ _ Hc j) as [->|[Hn1 ->]].
      * left. rewrite He1. by rewrite decide_False.
      * right. split; [|done]. unfold isNull in *. rewrite He1 in Hn1.
        by rewrite decide_False in Hn1.
  - intros j c Hedge Hs Hfin. apply Hnn.
    destruct (decide (i = j)) as [<-|Hne].
    + destruct Hedge as (sym & p & Hin).
      rewrite Forall_forall in Hf.
      apply (Hf (HPropagate c p)). apply list_elem_of_fmap. by exists (sym, HPropagate c p).
    + apply (cas_closed _ _ _ Hc j c).
      * destruct Hedge as (sym & p & Hin). exists sym, p. by rewrite Hh1.
      * unfold isNull in *. rewrite He1. by rewrite decide_False.
      * unfold isNull in *. by rewrite error_finish in Hfin.
  - intros j c Hedge Hfin.
    assert (Hji : j ≠ i) by (intros ->; congruence).
    assert (Hs2 : isNull s2 j = true).
    { unfold isNull in *. by rewrite error_finish in Hfin. }
    destruct (cas_edge _ _ _ Hc j c) as [He2|Hc2]; try done.
    + destruct Hedge as (sym & p & Hin). exists sym, p. by rewrite Hh1.
    + destruct (edge_finish i s2 j c (cas_own _ _ _ Hc) Hji He2) as [?| ->]; auto.
    + right. by apply Hnn.
  - eapply rtc_quietStore; [apply finish_rtc | apply Hc].
  - eapply rtc_ownUnreg; [apply finish_rtc | apply Hc].
Qed.
End Transition.

Lemma callHandler_cascade E n :
  truthy E = true →
  ∀ h s, quietStore s → ownUnreg s → legit E s h →
         cascades E s (callHandler n h s) (λ s', fired s' h).
Proof.
  intros HE. induction n as [|n IH]; intros h s Hq Ho Hl; [done |].
  destruct h as [k|u|i|p b v|c p|p c]; simpl in Hl; try done.
  - simpl. split; [|done]. apply cascade_prim_same; auto. constructor.
  - simpl. split; [|done]. apply cascade_prim_same; auto; [constructor | |];
      intros j; by rewrite cell_settle.
  - destruct Hl as [Herr Hc]. cbn [callHandler]. cbv zeta.
    set (sa := set_unregParentFunc c None s).
    assert (Hsa : cascade E s sa).
    { apply cascade_prim_same; auto; [constructor | |]; intros j.
      - apply error_set_unregParentFunc.
      - apply handlers_set_unregParentFunc. }
    assert (error sa p = E) as ->.
    { rewrite <- Herr, !error_owner. destruct (owner p); [|done].
      apply error_set_unregParentFunc. }
    pose proof (symCancelFunc_cascade E HE (callHandler n) IH c sa
                  (cas_quiet _ _ _ Hsa) (cas_own _ _ _ Hsa)) as H.
    rewrite (cas_len _ _ _ Hsa) in H. specialize (H Hc).
    destruct (symCancelFunc _ _ _ _) as [[] s'|s'|]; simpl in *; try done.
    destruct H as [H1 H2]. split; [by eapply cascade_trans | done].
  - simpl. split; [|done]. apply cascade_prim_same; auto; [constructor | |];
      intros j; by rewrite cell_settle.
Qed.

Lemma cancel_cascades E i s :
  truthy E = true → quietStore s → ownUnreg s → i < length (cells s) →
  ∃ s', cancel i E s = Ok tt s' ∧ cascade E s s' ∧ isNull s' i = false.
Proof.
  intros HE Hq Ho Hi.
  pose proof (symCancelFunc_cascade E HE (callHandler (fuelFor s))
                (callHandler_cascade E (fuelFor s) HE) i s Hq Ho Hi) as H.
  pose proof (cancel_total i E s) as Ht. unfold cancel in *.
  destruct (symCancelFunc _ _ _ _) as [[] s'|s'|]; simpl in *; try done.
  exists s'. by destruct H.
Qed.


(** ** The constructor on a parent without an error *)

Lemma error_alloc_ctx s c :
  ctx_in (length (cells s)) c →
  error (with_cells (λ cs, cs ++ [freshState]) s) c = error s c.
Proof.
  intros Hin. rewrite !error_owner. destruct (owner c) as [j|] eqn:Ho; [|done].
  rewrite cell_alloc_old; [done |]. by eapply owner_in.
Qed.

Lemma newCancelContext_active fuel parent dl now s :
  ctx_in (length (cells s)) parent → error s parent = VNull → notYet now dl →
  newCancelContext fuel parent dl now s
    = Ok (CancelContext parent dl (length (cells s))) (subscribeNew parent dl now s).
Proof.
  intros Hin Hact Hdl. unfold newCancelContext, subscribeNew.
  set (i := length (cells s)).
  set (s0 := with_cells (λ cs, cs ++ [freshState]) s).
  rewrite doneHandler_active by (unfold s0; by rewrite error_alloc_ctx).
  assert (∀ u s1, cell s1 i = freshState → length (cells s1) = S i →
            __error (cell (set_unregParentFunc i (Some u) s1) i) = VNull) as Hnew.
  { intros u s1 Hc Hl. by rewrite error_set_unregParentFunc, Hc. }
  assert (Hi0 : cell s0 i = freshState) by apply cell_alloc_new.
  assert (Hl0 : length (cells s0) = S i).
  { unfold s0; simpl. rewrite length_app. simpl. lia. }
  destruct (owner parent) as [j|] eqn:Ho; cbn [obind].
  - assert (Hji : j ≠ i) by (apply (owner_in _ _ _ Hin) in Ho; unfold i; lia).
    rewrite Hnew; [| by rewrite cell_register_ne | simpl; by rewrite length_alter].
    destruct dl as [d|]; [|done]. simpl in Hdl. cbn [is_null].
    destruct (d - now <=? 0)%Z eqn:Hle; [lia | done].
  - rewrite Hnew by done.
    destruct dl as [d|]; [|done]. simpl in Hdl. cbn [is_null].
    destruct (d - now <=? 0)%Z eqn:Hle; [lia | done].
Qed.

Lemma cell_subscribeNew parent dl now s j :
  ctx_in (length (cells s)) parent →
  cell (subscribeNew parent dl now s) j =
    if decide (j = length (cells s)) then
      mkCancelState VNull []
        (Some (match owner parent with
               | Some k => Unreg k (nextSym s)
               | None => Noop
               end))
    else if decide (owner parent = Some j) then
      mkCancelState (__error (cell s j))
        (__doneHandlers (cell s j) ++ [(nextSym s, HPropagate (length (cells s)) parent)])
        (__unregParentFunc (cell s j))
    else cell s j.
Proof.
  intros Hin. unfold subscribeNew.
  set (i := length (cells s)).
  set (s0 := with_cells (λ cs, cs ++ [freshState]) s).
  assert (Hl0 : length (cells s0) = S i).
  { unfold s0; simpl. rewrite length_app. simpl. lia. }
  assert (∀ u s1 t, length (cells s1) = S i →
    cell (match dl with
          | Some d => with_timers (t d (set_unregParentFunc i (Some u) s1))
                        (set_unregParentFunc i (Some u) s1)
          | None => set_unregParentFunc i (Some u) s1
          end) j
    = if decide (j = i) then mkCancelState (__error (cell s1 i)) (__doneHandlers (cell s1 i)) (Some u)
      else cell s1 j) as Hshape.
  { intros u s1 t Hl1.
    assert (cell (set_unregParentFunc i (Some u) s1) j =
            if decide (j = i)
            then mkCancelState (__error (cell s1 i)) (__doneHandlers (cell s1 i)) (Some u)
            else cell s1 j) as Hc.
    { rewrite cell_set_unregParentFunc, Hl1.
      destruct (decide (j = i)) as [->|Hne].
      - rewrite decide_True; [done | split; [done | lia]].
      - rewrite decide_False; [done | intros [? _]; done]. }
    by destruct dl. }
  destruct (owner parent) as [k|] eqn:Ho.
  - assert (Hki : k < i) by by apply (owner_in _ _ _ Hin).
    rewrite (Hshape _ _ (λ d s2, timers s2 ++ [((d - now)%Z, i)]))
      by (simpl; by rewrite length_alter).
    destruct (decide (j = i)) as [->|Hne].
    + rewrite cell_register_ne by lia. unfold s0. by rewrite cell_alloc_new.
    + destruct (decide (Some k = Some j)) as [[= ->]|Hkj].
      * unfold register. rewrite cell_set_doneHandlers.
        change (cells (with_nextSym _ s0)) with (cells s0).
        change (cell (with_nextSym _ s0)) with (cell s0).
        rewrite decide_True by (split; [done | lia]).
        unfold s0. by rewrite cell_alloc_old.
      * rewrite cell_register_ne by congruence. unfold s0. rewrite cell_alloc.
        case_decide; [done |]. symmetry. apply cell_fresh_out. lia.
  - rewrite (Hshape _ _ (λ d s2, timers s2 ++ [((d - now)%Z, i)])) by done.
    destruct (decide (j = i)) as [->|Hne].
    + unfold s0. by rewrite cell_alloc_new.
    + unfold s0. rewrite cell_alloc. case_decide; [done |].
      symmetry. apply cell_fresh_out. lia.
Qed.

Lemma nextSym_subscribeNew parent dl now s :
  nextSym (subscribeNew parent dl now s) =
    match owner parent with
    | Some _ => S (nextSym s)
    | None => nextSym s
    end.
Proof. unfold subscribeNew. by destruct (owner parent), dl. Qed.

Lemma length_subscribeNew parent dl now s :
  length (cells (subscribeNew parent dl now s)) = S (length (cells s)).
Proof.
  unfold subscribeNew. destruct (owner parent), dl; simpl;
    rewrite ?length_alter, length_app; simpl; lia.
Qed.

Lemma quiet_mono s s' j h :
  length (cells s) ≤ length (cells s') → quiet s j h → quiet s' j h.
Proof. intros Hl. destruct h; simpl; try done. intros [? ?]. split; [done | lia]. Qed.


Lemma tidy_emptyStore : tidy emptyStore.
Proof.
  split; [|split; [|split]].
  - intros j x. rewrite cell_fresh_out by (simpl; lia). by intros ?%elem_of_nil.
  - intros x j sym h. rewrite cell_fresh_out by (simpl; lia). done.
  - intros j x. rewrite cell_fresh_out by (simpl; lia). by intros ?%elem_of_nil.
  - intros x j sym. rewrite cell_fresh_out by (simpl; lia). done.
Qed.

Section Subscribe.
Variables (parent : ctx) (dl : option Z) (now : Z) (s : store).
Hypothesis parent_in : ctx_in (length (cells s)) parent.
Local Abbreviation i := (length (cells s)).
Local Abbreviation s' := (subscribeNew parent dl now s).

Lemma subscribeNew_new : cell s' i =
  mkCancelState VNull []
    (Some (match owner parent with Some k => Unreg k (nextSym s) | None => Noop end)).
Proof.
  rewrite cell_subscribeNew by done. by rewrite decide_True.
Qed.

Lemma subscribeNew_error j : j ≠ i → __error (cell s' j) = __error (cell s j).
Proof.
  intros Hj. rewrite cell_subscribeNew by done.
  rewrite decide_False by done. by case_decide.
Qed.

Lemma subscribeNew_unreg j :
  j ≠ i → __unregParentFunc (cell s' j) = __unregParentFunc (cell s j).
Proof.
  intros Hj. rewrite cell_subscribeNew by done.
  rewrite decide_False by done. by case_decide.
Qed.

Lemma subscribeNew_handlers j x :
  x ∈ __doneHandlers (cell s' j) →
  x ∈ __doneHandlers (cell s j) ∨
  (owner parent = Some j ∧ x = (nextSym s, HPropagate i parent)).
Proof.
  rewrite cell_subscribeNew by done.
  case_decide; [by intros ?%elem_of_nil |]. case_decide; simpl; [|auto].
  intros [?| ->%list_elem_of_singleton]%elem_of_app; auto.
Qed.


Lemma subscribeNew_tidy : tidy s → tidy s'.
Proof.
  intros (Hq & Ho & Hb1 & Hb2).
  assert (Hlen : length (cells s) ≤ length (cells s'))
    by (rewrite length_subscribeNew; lia).
  assert (Hsym : nextSym s ≤ nextSym s' ∧
                 (∀ k, owner parent = Some k → nextSym s < nextSym s')).
  { rewrite nextSym_subscribeNew. destruct (owner parent); split; try lia; done. }
  destruct Hsym as [Hsym1 Hsym2].
  split; [|split; [|split]].
  - intros j x [Hx|[Hown ->]]%subscribeNew_handlers.
    + eapply quiet_mono; [exact Hlen | by apply Hq].
    + simpl. split; [done |]. rewrite length_subscribeNew. lia.
  - intros x j sym h Hu Hh. destruct (decide (x = i)) as [->|Hx].
    + rewrite subscribeNew_new in Hu. simpl in Hu.
      destruct (owner parent) as [k|] eqn:Hown; [|done]. simplify_eq.
      apply subscribeNew_handlers in Hh as [Hh|[_ Hh]].
      * apply Hb1 in Hh. simpl in Hh. lia.
      * simplify_eq. by exists parent.
    + rewrite subscribeNew_unreg in Hu by done.
      apply subscribeNew_handlers in Hh as [Hh|[_ Hh]]; [by eapply Ho |].
      apply Hb2 in Hu. simplify_eq. lia.
  - intros j x [Hx|[Hown ->]]%subscribeNew_handlers.
    + apply Hb1 in Hx. lia.
    + simpl. by eapply Hsym2.
  - intros x j sym Hu. destruct (decide (x = i)) as [->|Hx].
    + rewrite subscribeNew_new in Hu. simpl in Hu.
      destruct (owner parent) as [k|] eqn:Hown; [|done]. simplify_eq. by eapply Hsym2.
    + rewrite subscribeNew_unreg in Hu by done. apply Hb2 in Hu. lia.
Qed.



Lemma subscribeNew_subscribed_new j :
  owner parent = Some j → error s parent = VNull →
  subscribed s' (CancelContext parent dl i).
Proof.
  intros Hown Hact. simpl. intros _. exists j. split; [done |].
  assert (Hji : j ≠ i) by (apply (owner_in _ _ _ parent_in) in Hown; lia).
  unfold isNull. rewrite subscribeNew_error by done.
  rewrite error_owner, Hown in Hact. rewrite Hact. split; [done |].
  exists (nextSym s). rewrite cell_subscribeNew by done.
  rewrite decide_False by done. rewrite decide_True by done. simpl.
  apply elem_of_app. right. by apply list_elem_of_singleton.
Qed.
End Subscribe.


(** * The claims *)

(** ** C1: the cause set by the trigger function *)

(** C1 (code defect).  The spec's end-to-end scenario, run on the code:
    [(c, cancel) = withCancel(background())], [child = withCancel(c)[0]],
    [cancel()].  Both nodes end with the error [true], the first argument of
    the call [ctx[symCancelFunc](true, cancelledError)], and not with the
    [CancelledError] value the claim names. *)
Theorem C1_trigger_passes_true :
  withCancel 3 background emptyStore = Ok (c0, HCallCancel 0) s_c0 ∧
  withCancel 3 c0 s_c0 = Ok (c1, HCallCancel 1) s_c0_c1 ∧
  error s_c0_c1 c0 = VNull ∧ error s_c0_c1 c1 = VNull ∧
  ∃ s', callHandler 3 (HCallCancel 0) s_c0_c1 = Ok tt s' ∧
        error s' c0 = VBool true ∧ error s' c1 = VBool true ∧
        error s' c0 ≠ VCancelledError ∧ error s' c1 ≠ VCancelledError.
Proof.
  split; [reflexivity |]. split; [reflexivity |]. split; [reflexivity |].
  split; [reflexivity |]. eexists. split; [vm_compute; reflexivity |].
  repeat split; try reflexivity; discriminate.
Qed.

(** ** C2: the reported deadline *)

(** C2, as stated, fails: a node with deadline 20 under a parent reporting 10
    reports 20, not the minimum. *)
Lemma C2_counterexample :
  let p := CancelContext background (Some 10%Z) 0 in
  let c := CancelContext p (Some 20%Z) 1 in
  deadline p = Some 10%Z ∧ deadline c = Some 20%Z ∧ ¬ minimumRule c.
Proof.
  cbv zeta. split; [done |]. split; [done |].
  intros H. specialize (H _ eq_refl). discriminate H.
Qed.

(** C2 (amended).  A context with a parent reports its own declared deadline
    when it has one and its parent's reported deadline otherwise; this is the
    minimum of the two whenever the own deadline is absent, the parent reports
    none, or the own deadline is not later than the parent's. *)
Theorem C2_deadline_own_else_parent c p :
  parentOf c = Some p →
  deadline c = match declaredDeadline c with
               | Some d => Some d
               | None => deadline p
               end ∧
  (notLater (declaredDeadline c) (deadline p) →
   deadline c = earliest (declaredDeadline c) (deadline p)).
Proof.
  intros Hp. destruct c as [k|q k v|q d i]; simpl in *; simplify_eq.
  - done.
  - split; [done |]. destruct d as [d|]; simpl; [|done].
    destruct (deadline p) as [y|]; simpl; [|done].
    intros H. f_equal. lia.
Qed.

Lemma C2_witness :
  deadline (CancelContext (CancelContext background (Some 30%Z) 0) (Some 20%Z) 1)
    = Some 20%Z.
Proof.
  pose proof (C2_deadline_own_else_parent
    (CancelContext (CancelContext background (Some 30%Z) 0) (Some 20%Z) 1)
    (CancelContext background (Some 30%Z) 0) eq_refl) as [H _].
  exact H.
Defined.

(** ** C3: unregistering a done handler *)

(** C3 (code defect).  [g] is registered first and calls the unregister
    function of [f], registered second.  When the node is cancelled, [g] runs
    first and does remove [f]'s entry from [__doneHandlers]; the loop goes on
    over the array it started with and calls [f] all the same. *)
Theorem C3_unregister_inside_firing_pass :
  doneHandler 3 c0 g_unreg s_c0 = Ok (Unreg 0 0) s_g ∧
  doneHandler 3 c0 f_user s_g = Ok (Unreg 0 1) s_gf ∧
  __doneHandlers (cell s_gf 0) = [(0, g_unreg); (1, f_user)] ∧
  trace s_gf = [] ∧
  (∃ s1, callHandler 3 g_unreg (set_error 0 (VBool true) s_gf) = Ok tt s1 ∧
         __doneHandlers (cell s1 0) = [(0, g_unreg)] ∧ trace s1 = []) ∧
  (∃ s', cancelTrigger 3 0 s_gf = Ok tt s' ∧ trace s' = [7]).
Proof.
  repeat split; try reflexivity.
  - eexists. split; [vm_compute; reflexivity |]. split; reflexivity.
  - eexists. split; [vm_compute; reflexivity |]. reflexivity.
Qed.

(** Unregistered before the node is cancelled, [f] is not called. *)
Example unregister_before_cancel :
  ∃ s', cancelTrigger 3 0 (callUnreg (Unreg 0 1) s_gf) = Ok tt s' ∧ trace s' = [].
Proof. eexists. split; [vm_compute; reflexivity | reflexivity]. Qed.

(** ** C4: propagation along a chain *)



(** A done handler that cancels a node of the chain during the pass is other
    work: registered on the top before the child was made, it runs first, and
    the child keeps the cause it was given then (the first cause wins). *)
Example competing_trigger_goes_first :
  ∃ s', exec (TimerFires 0) s_compete = Ok RUnit s' ∧
        error s_compete top_d = VNull ∧ error s_compete child_d = VNull ∧
        error s' top_d = VDeadlineError ∧ error s' child_d = VBool true.
Proof. eexists. split; [vm_compute; reflexivity |]. repeat split; reflexivity. Qed.

(** ** C5: the error field is set once *)

(** C5.  A new node has no error.  On a node without an error the transition
    function, called with a cause, ends with that cause stored; on a node with
    an error it returns at once and the store is as before; and no call of any
    done handler changes an error that is present. *)
Theorem C5_error_monotonic i err s :
  i < length (cells s) → truthy err = true →
  (∀ fuel parent dl now, ctx_in (length (cells s)) parent →
     error s parent = VNull → notYet now dl →
     ∃ c s', newCancelContext fuel parent dl now s = Ok c s' ∧ error s' c = VNull) ∧
  (isNull s i = true →
     ∃ s', (cancel i err s = Ok tt s' ∨ cancel i err s = Throw s') ∧
           __error (cell s' i) = err) ∧
  (isNull s i = false →
     ∀ fuel, symCancelFunc (callHandler fuel) i err s = Ok tt s) ∧
  (∀ fuel h j, isNull s j = false →
     after (callHandler fuel h s) (λ s', __error (cell s' j) = __error (cell s j))).
Proof.
  intros Hi Ht. split; [|split; [|split]].
  - intros fuel parent dl now Hin Hact Hdl. eexists _, _.
    split; [by apply newCancelContext_active |].
    simpl. by rewrite subscribeNew_new.
  - intros Hn.
    pose proof (symCancelFunc_sets_error (callHandler (fuelFor s)) i err s
                  (callHandler_rtc _) Hi Ht Hn) as H.
    pose proof (cancel_total i err s) as Htot. unfold cancel in *.
    destruct (symCancelFunc _ _ _ _) as [[] s'|s'|]; [| |done]; eauto.
  - intros Hn fuel. by apply symCancelFunc_done.
  - intros fuel h j Hj. pose proof (callHandler_keeps fuel h s) as H.
    destruct (callHandler fuel h s); simpl in *; try done; by apply H.
Qed.

Lemma C5_witness :
  ∃ s', (cancel 0 VDeadlineError s_c0 = Ok tt s' ∨
         cancel 0 VDeadlineError s_c0 = Throw s') ∧
        __error (cell s' 0) = VDeadlineError.
Proof.
  refine (proj1 (proj2 (C5_error_monotonic 0 VDeadlineError s_c0 _ _)) _).
  - vm_compute. lia.
  - reflexivity.
  - reflexivity.
Defined.

(** ** C6: racing an operation against expiry *)

(** C6 (code defect).  The context has no error when [raceContext] is called;
    the operation cancels it and then returns a promise that is already
    resolved with 42.  The job of the operation's promise is queued before the
    one of the expiry promise, and [aborted] is only set by the latter: the
    returned promise is fulfilled with 42 and [cleanupFunc] is not called. *)
Theorem C6_expiry_before_settled_operation :
  error s_c0 c0 = VNull ∧
  ∃ s1 s2,
    raceContext 3 c0 f_cancels_then_resolved true s_c0 = Ok 0 s1 ∧
    fcalls s1 = 1 ∧
    error s1 c0 = VBool true ∧
    promises s1 !! 1 = Some (mkPromise (Fulfilled (VNum 42)) [] []) ∧
    jobs s1 = [(ROperationDone 0 true, VNum 42); (RExpired 0, VBool true)] ∧
    runJobs 3 s1 = s2 ∧
    jobs s2 = [] ∧
    p_state <$> promises s2 !! 0 = Some (Fulfilled (VNum 42)) ∧
    cleaned s2 = [].
Proof.
  split; [reflexivity |]. eexists _, _.
  split; [vm_compute; reflexivity |].
  repeat split; reflexivity.
Qed.

(** The same with an operation whose promise is pending when it returns: a
    done handler registered on the context before the race resolves it. *)
Example race_operation_resolved_by_done_handler :
  ∃ s1 s2,
    raceContext 3 c0 f_pending true s_resolver = Ok 0 s1 ∧
    promises s1 !! 1 = Some (mkPromise Pending [ROperationDone 0 true] [ROperationFailed 0]) ∧
    turn 3 [HCallCancel 0] s1 = Ok tt s2 ∧
    error s2 c0 = VBool true ∧
    p_state <$> promises s2 !! 0 = Some (Fulfilled (VNum 42)) ∧
    cleaned s2 = [].
Proof.
  eexists _, _. split; [vm_compute; reflexivity |].
  split; [reflexivity |]. split; [vm_compute; reflexivity |]. repeat split; reflexivity.
Qed.

(** When the expiry is the first thing to happen after the call, the claim's
    behaviour is what the code does. *)
Example race_expiry_then_late_result :
  ∃ s1 s2,
    raceContext 3 c0 f_pending true s_c0 = Ok 0 s1 ∧
    turn 3 [HCallCancel 0; HSettle 1 true (VNum 42)] s1 = Ok tt s2 ∧
    p_state <$> promises s2 !! 0 = Some (Rejected (VBool true)) ∧
    cleaned s2 = [VNum 42].
Proof.
  eexists _, _. split; [vm_compute; reflexivity |].
  split; [vm_compute; reflexivity |]. split; reflexivity.
Qed.

Example race_expiry_then_late_failure :
  ∃ s1 s2,
    raceContext 3 c0 f_pending true s_c0 = Ok 0 s1 ∧
    turn 3 [HCallCancel 0; HSettle 1 false (VObj 5)] s1 = Ok tt s2 ∧
    p_state <$> promises s2 !! 0 = Some (Rejected (VBool true)) ∧
    cleaned s2 = [].
Proof.
  eexists _, _. split; [vm_compute; reflexivity |].
  split; [vm_compute; reflexivity |]. split; reflexivity.
Qed.

(** ** C7: racing on a context that is already done *)

(** C7.  When the context has an error at the call, [raceContext] returns a
    promise already rejected with that error; the operation is not started and
    nothing else in the store changes. *)
Theorem C7_race_on_done_context fuel c f cleanupFunc s :
  is_null (error s c) = false →
  ∃ s', raceContext fuel c f cleanupFunc s = Ok (length (promises s)) s' ∧
        promises s' !! length (promises s)
          = Some (mkPromise (Rejected (error s c)) [] []) ∧
        fcalls s' = fcalls s ∧ cells s' = cells s ∧ trace s' = trace s ∧
        jobs s' = jobs s ∧ cleaned s' = cleaned s.
Proof.
  intros H. unfold raceContext. rewrite H. simpl. eexists. split; [done |].
  simpl. split; [by rewrite list_lookup_middle | done].
Qed.

Lemma C7_witness :
  ∃ s', raceContext 3 c0 f_cancels_then_resolved true s_done = Ok 0 s' ∧
        promises s' !! 0 = Some (mkPromise (Rejected (VBool true)) [] []) ∧
        fcalls s' = 0 ∧ cells s' = cells s_done ∧ trace s' = [] ∧
        jobs s' = [] ∧ cleaned s' = [].
Proof.
  apply (C7_race_on_done_context 3 c0 f_cancels_then_resolved true s_done).
  reflexivity.
Defined.

(** ** C8: a transition without a cause *)

(** C8.  Called with [null] or [undefined], the transition function throws,
    whatever the state of the node; the store at the throw is the store of the
    call, so the error and the handler list are as before. *)
Theorem C8_absent_cause_throws fuel i s :
  symCancelFunc (callHandler fuel) i VNull s = Throw s ∧
  symCancelFunc (callHandler fuel) i VUndefined s = Throw s ∧
  cancel i VNull s = Throw s ∧
  cancel i VUndefined s = Throw s.
Proof. done. Qed.

(** ** C9: a deadline in the past *)

(** C9.  With a parent that has no error and a deadline that is not after the
    time the constructor reads, the constructor returns a node whose error is
    the [DeadlineError] value, and the timers are those of before the call. *)
Theorem C9_past_deadline fuel s parent d now :
  ctx_in (length (cells s)) parent →
  error s parent = VNull →
  (d - now ≤ 0)%Z →
  ∃ s', newCancelContext fuel parent (Some d) now s
          = Ok (CancelContext parent (Some d) (length (cells s))) s' ∧
        error s' (CancelContext parent (Some d) (length (cells s))) = VDeadlineError ∧
        timers s' = timers s.
Proof.
  intros Hin Hact Hpast. unfold newCancelContext.
  set (i := length (cells s)).
  set (s0 := with_cells (λ cs, cs ++ [freshState]) s).
  assert (Hact0 : error s0 parent = VNull).
  { rewrite error_owner in *. destruct (owner parent) as [j|] eqn:Ho; [|done].
    unfold s0. rewrite cell_alloc_old; [done |]. by eapply owner_in. }
  rewrite (doneHandler_active _ _ _ _ Hact0).
  assert (∃ u s1, (match owner parent with
                   | Some j => Ok (Unreg j (nextSym s0)) (register j (HPropagate i parent) s0)
                   | None => Ok Noop s0 end) = Ok u s1 ∧
                  cell s1 i = freshState ∧ length (cells s1) = S i ∧ timers s1 = timers s)
    as (u & s1 & -> & Hc & Hl & Ht).
  { destruct (owner parent) as [j|] eqn:Ho.
    - eexists _, _. split; [done |]. split; [|split].
      + rewrite cell_register_ne; [apply cell_alloc_new |].
        apply (owner_in _ _ _ Hin) in Ho. unfold i. lia.
      + simpl. rewrite length_alter, length_app. simpl. unfold i. lia.
      + done.
    - eexists _, _. split; [done |]. split; [apply cell_alloc_new |]. split; [|done].
      simpl. rewrite length_app. simpl. unfold i. lia. }
  cbn [obind].
  set (s2 := set_unregParentFunc i (Some u) s1).
  assert (Hc2 : cell s2 i = mkCancelState VNull [] (Some u)).
  { unfold s2. rewrite cell_set_unregParentFunc, Hc.
    rewrite decide_True; [done | split; [done | lia]]. }
  assert (Hl2 : length (cells s2) = S i)
    by (unfold s2; by rewrite length_set_unregParentFunc).
  rewrite Hc2. cbn [__error is_null].
  assert ((d - now <=? 0)%Z = true) as -> by lia.
  rewrite symCancelFunc_active by (by rewrite ?Hc2).
  rewrite Hc2. cbn [__doneHandlers map runHandlers].
  set (s3 := set_doneHandlers i [] (set_error i VDeadlineError s2)).
  assert (Hc3 : cell s3 i = mkCancelState VDeadlineError [] (Some u)).
  { unfold s3. rewrite cell_set_doneHandlers, cell_set_error, length_set_error, Hc2, Hl2.
    rewrite !decide_True by (split; [done | lia]). done. }
  cbv zeta. fold s3. rewrite Hc3. cbn [__unregParentFunc obind].
  eexists. split; [done |]. split.
  - cbn [error]. rewrite error_set_unregParentFunc, error_callUnreg, Hc3. done.
  - transitivity (timers s1); [|done]. by destruct u.
Qed.

Lemma C9_witness :
  ∃ s', newCancelContext 0 background (Some 10%Z) 20%Z emptyStore
          = Ok (CancelContext background (Some 10%Z) 0) s' ∧
        error s' (CancelContext background (Some 10%Z) 0) = VDeadlineError ∧
        timers s' = [].
Proof.
  apply (C9_past_deadline 0 emptyStore background 10%Z 20%Z); [exact I | reflexivity | lia].
Defined.

(** ** C10: a node with an error holds no handlers *)



(** Every store the interface can produce from the empty one is such a store. *)
Lemma reachable_doneMeansEmpty s : reachable s → doneMeansEmpty s.
Proof. intros H. by apply reachable_good in H as [? _]. Qed.

(** * Further properties of the module *)

(** X1.  [value(key)] is the value of the nearest binding of the key above the
    context, across cancellable nodes, and [undefined] when there is none; a
    result other than [undefined] is a binding that was made. *)
Theorem value_is_first_binding c k :
  value c k = default VUndefined (firstBinding k (bindings c)) ∧
  (value c k ≠ VUndefined → (k, value c k) ∈ bindings c) ∧
  (∀ k' v, k' ≠ k → value (withValue c k' v) k = value c k) ∧
  (∀ v v', value (withValue (withValue c k v) k v') k = v').
Proof.
  split; [|split; [|split]].
  - induction c as [e|p IH k' v|p IH d i]; simpl; auto.
    by destruct (decide (k' = k)).
  - induction c as [e|p IH k' v|p IH d i]; simpl; auto.
    + done.
    + destruct (decide (k' = k)) as [->|Hne]; intros H.
      * apply elem_of_cons. by left.
      * apply elem_of_cons. right. by apply IH.
  - intros k' v Hne. simpl. by rewrite decide_False.
  - intros v v'. simpl. by rewrite decide_True.
Qed.

(** X2.  A context with no cancellable node at or above it (a root, or value
    contexts over a root) reports no deadline and never an error;
    [doneHandler] on it returns [_noop] and keeps nothing, and its expiry
    promise is pending with nothing registered that could reject it. *)
Theorem rootless_context_is_inert c :
  owner c = None →
  deadline c = None ∧
  ∀ s fuel f,
    error s c = VNull ∧
    doneHandler fuel c f s = Ok Noop s ∧
    ∃ s', expiryPromise fuel c s = Ok (length (promises s)) s' ∧
          cells s' = cells s ∧
          promises s' = promises s ++ [mkPromise Pending [] []] ∧
          jobs s' = jobs s.
Proof.
  intros Ho. split.
  - induction c as [e|p IH k v|p IH d i]; simpl in *; auto. done.
  - intros s fuel f.
    assert (He : error s c = VNull) by (by rewrite error_owner, Ho).
    assert (Hd : ∀ f s, doneHandler fuel c f s = Ok Noop s).
    { clear He. intros f' s'. revert Ho. induction c; simpl; auto. done. }
    split; [done |]. split; [done |].
    unfold expiryPromise, newPromise. rewrite Hd. simpl. eauto.
Qed.

Lemma cells_ext s s' :
  length (cells s') = length (cells s) → (∀ j, cell s' j = cell s j) →
  cells s' = cells s.
Proof.
  intros Hl Hc. apply list_eq. intros j. specialize (Hc j). unfold cell in Hc.
  destruct (cells s' !! j) as [x|] eqn:E1, (cells s !! j) as [y|] eqn:E2; simpl in *.
  - by subst.
  - apply lookup_lt_Some in E1. apply lookup_ge_None in E2. lia.
  - apply lookup_ge_None in E1. apply lookup_lt_Some in E2. lia.
  - done.
Qed.

Lemma with_cells_id f s : f (cells s) = cells s → with_cells f s = s.
Proof. intros H. destruct s. unfold with_cells. simpl in *. by rewrite H. Qed.

Lemma with_cells_eq f g s : f (cells s) = g (cells s) → with_cells f s = with_cells g s.
Proof. intros H. unfold with_cells. by rewrite H. Qed.

Lemma cancelState_eta st :
  mkCancelState (__error st) (__doneHandlers st) (__unregParentFunc st) = st.
Proof. by destruct st. Qed.

Lemma callUnreg_absent i sym s :
  (∀ x, x ∈ __doneHandlers (cell s i) → x.1 ≠ sym) → callUnreg (Unreg i sym) s = s.
Proof.
  intros H. simpl. unfold set_doneHandlers. apply with_cells_id.
  transitivity (cells (set_doneHandlers i
     (filter (λ x, x.1 ≠ sym) (__doneHandlers (cell s i))) s)); [done |].
  apply cells_ext; [apply length_set_doneHandlers |].
  intros j. rewrite cell_set_doneHandlers. case_decide as Hd; [|done].
  destruct Hd as [-> _].
  replace (filter _ _) with (__doneHandlers (cell s j)); [apply cancelState_eta |].
  symmetry. clear -H. induction (__doneHandlers (cell s j)) as [|x l IH]; [done |].
  rewrite filter_cons_True by (apply H; by left). f_equal. apply IH.
  intros y Hy. apply H. by right.
Qed.

(** X4.  Calling an unregister function a second time changes nothing, and
    after a call no entry with its symbol is left in the node's list. *)
Theorem unregister_is_idempotent u s :
  callUnreg u (callUnreg u s) = callUnreg u s ∧
  (∀ i sym, u = Unreg i sym → ∀ x, x ∈ __doneHandlers (cell (callUnreg u s) i) → x.1 ≠ sym).
Proof.
  assert (Hgone : ∀ i sym x,
    x ∈ __doneHandlers (cell (callUnreg (Unreg i sym) s) i) → x.1 ≠ sym).
  { intros i sym x. rewrite handlers_callUnreg. case_decide.
    - by intros [? _]%list_elem_of_filter.
    - intros Hx. apply handler_in_range in Hx. tauto. }
  split.
  - destruct u as [|i sym]; [done |]. apply callUnreg_absent. apply Hgone.
  - intros i sym ->. apply Hgone.
Qed.

(** X5.  Once the node has its error, calling an unregister function of one of
    its handlers leaves the store as it is. *)
Theorem unregister_after_done_is_noop i sym s :
  doneMeansEmpty s → isNull s i = false → callUnreg (Unreg i sym) s = s.
Proof.
  intros Hd Hn. apply callUnreg_absent. rewrite (Hd i); [|apply not_elem_of_nil | done].
  by intros x ?%elem_of_nil.
Qed.

Lemma cancelState_ext a b :
  __error a = __error b → __doneHandlers a = __doneHandlers b →
  __unregParentFunc a = __unregParentFunc b → a = b.
Proof. destruct a, b; simpl; congruence. Qed.

Lemma length_register i f s : length (cells (register i f s)) = length (cells s).
Proof. unfold register. by rewrite length_set_doneHandlers. Qed.

Lemma unreg_register i f s j :
  __unregParentFunc (cell (register i f s) j) = __unregParentFunc (cell s j).
Proof. unfold register. by rewrite unreg_set_doneHandlers. Qed.

Lemma filter_fresh_symbol (l : list (nat * handler)) n f :
  (∀ x, x ∈ l → x.1 < n) → filter (λ x, x.1 ≠ n) (l ++ [(n, f)]) = l.
Proof.
  intros H. rewrite filter_app, filter_cons_False, filter_nil, app_nil_r by (simpl; tauto).
  induction l as [|x l IH]; [done |].
  rewrite filter_cons_True.
  - f_equal. apply IH. intros y Hy. apply H. by right.
  - assert (x.1 < n) by (apply H; by left). lia.
Qed.

Lemma doneHandler_callUnreg fuel c f i s :
  owner c = Some i → error s c = VNull →
  (∀ x, x ∈ __doneHandlers (cell s i) → x.1 < nextSym s) →
  ∃ u s1, doneHandler fuel c f s = Ok u s1 ∧
          (i < length (cells s) → (nextSym s, f) ∈ __doneHandlers (cell s1 i)) ∧
          cells (callUnreg u s1) = cells s ∧
          trace (callUnreg u s1) = trace s.
Proof.
  intros Ho He Hsym. rewrite doneHandler_active by done. rewrite Ho.
  eexists _, _. split; [done |]. split; [|split; [|done]].
  - intros Hi. rewrite handlers_register. rewrite decide_True by done.
    apply elem_of_app. right. by apply list_elem_of_singleton.
  - apply cells_ext.
    + by rewrite length_callUnreg, length_register.
    + intros j. apply cancelState_ext.
      * by rewrite error_callUnreg, error_register.
      * rewrite handlers_callUnreg, length_register, !handlers_register.
        destruct (decide (i = j ∧ j < length (cells s))) as [[-> Hj]|Hne]; [|done].
        by apply filter_fresh_symbol.
      * by rewrite unreg_callUnreg, unreg_register.
Qed.

(** X3.  On a context without an error, [doneHandler(f)] stores [f] under a new
    symbol, and calling the function it returns puts every node back as it
    was. *)
Theorem register_unregister_round_trip fuel c f i s :
  owner c = Some i → error s c = VNull →
  (∀ x, x ∈ __doneHandlers (cell s i) → x.1 < nextSym s) →
  ∃ u s1, doneHandler fuel c f s = Ok u s1 ∧
          (i < length (cells s) → (nextSym s, f) ∈ __doneHandlers (cell s1 i)) ∧
          cells (callUnreg u s1) = cells s ∧
          trace (callUnreg u s1) = trace s.
Proof. apply doneHandler_callUnreg. Qed.

Lemma with_trace_id s : with_trace (trace s) s = s.
Proof. by destruct s. Qed.

Lemma runHandlers_observers n ks : ∀ t,
  runHandlers (callHandler (S n)) (map HUser ks) t = Ok tt (with_trace (trace t ++ ks) t).
Proof.
  induction ks as [|k ks IH]; intros t; simpl.
  - by rewrite app_nil_r, with_trace_id.
  - change (callHandler (S n) (HUser k) t) with (Ok tt (with_trace (trace t ++ [k]) t)).
    rewrite IH. simpl. by rewrite <- app_assoc.
Qed.

Lemma trace_callUnreg u s : trace (callUnreg u s) = trace s.
Proof. by destruct u. Qed.

Lemma trace_finish i s : trace (finish i s) = trace s.
Proof.
  unfold finish. destruct (__unregParentFunc _) as [u|]; [|done].
  transitivity (trace (callUnreg u (set_doneHandlers i [] s))); [done |].
  by rewrite trace_callUnreg.
Qed.

Lemma handlers_finish_self i s : __doneHandlers (cell (finish i s) i) = [].
Proof.
  unfold finish.
  assert (__doneHandlers (cell (set_doneHandlers i [] s) i) = []) as H3.
  { rewrite handlers_set_doneHandlers. case_decide as Hd; [done |].
    rewrite cell_fresh_out; [done |]. destruct (decide (i < length (cells s))); [|lia].
    exfalso. by apply Hd. }
  destruct (__unregParentFunc _); [|done].
  rewrite handlers_set_unregParentFunc. by apply handlers_filter_cell.
Qed.

Lemma symCancelFunc_finish call i err s s2 :
  truthy err = true → isNull s i = true →
  runHandlers call (map snd (__doneHandlers (cell s i))) (set_error i err s) = Ok tt s2 →
  symCancelFunc call i err s = Ok tt (finish i s2).
Proof.
  intros Ht Hn Hr. rewrite symCancelFunc_active by done. rewrite Hr.
  unfold finish. by destruct (__unregParentFunc _).
Qed.

(** X6.  When a node whose handlers are observers is cancelled, they are called
    in the order of their registration, each once; the list is empty
    afterwards and a later transition calls none of them again. *)
Theorem observers_fire_once_in_order n i err ks s :
  i < length (cells s) → truthy err = true → isNull s i = true →
  map snd (__doneHandlers (cell s i)) = map HUser ks →
  ∃ s', symCancelFunc (callHandler (S n)) i err s = Ok tt s' ∧
        trace s' = trace s ++ ks ∧
        __error (cell s' i) = err ∧
        __doneHandlers (cell s' i) = [] ∧
        ∀ fuel err', truthy err' = true →
          symCancelFunc (callHandler fuel) i err' s' = Ok tt s'.
Proof.
  intros Hi Ht Hn Hks.
  pose proof (symCancelFunc_finish (callHandler (S n)) i err s _ Ht Hn
                ltac:(rewrite Hks; apply runHandlers_observers)) as Hrun.
  eexists. split; [exact Hrun |].
  assert (He : __error (cell (finish i (with_trace
              (trace (set_error i err s) ++ ks) (set_error i err s))) i) = err).
  { rewrite error_finish.
    change (cell (with_trace _ (set_error i err s)) i) with (cell (set_error i err s) i).
    rewrite error_set_error. by rewrite decide_True. }
  split; [by rewrite trace_finish |]. split; [done |].
  split; [apply handlers_finish_self |].
  intros fuel err' Ht'. apply symCancelFunc_done; [done |].
  rewrite He. by apply truthy_not_null.
Qed.

(** X7.  A context made from a parent that has an error has that error when the
    constructor returns, whatever its deadline; no timer is set, no symbol is
    used and the existing nodes are as before. *)
Theorem context_of_done_parent_is_born_done n parent dl now s :
  ctx_in (length (cells s)) parent →
  truthy (error s parent) = true →
  ∃ s', newCancelContext (S n) parent dl now s
          = Ok (CancelContext parent dl (length (cells s))) s' ∧
        error s' (CancelContext parent dl (length (cells s))) = error s parent ∧
        __doneHandlers (cell s' (length (cells s))) = [] ∧
        timers s' = timers s ∧
        nextSym s' = nextSym s ∧
        (∀ j, j < length (cells s) → cell s' j = cell s j).
Proof.
  intros Hin Ht. unfold newCancelContext.
  set (i := length (cells s)).
  remember (with_cells (λ cs, cs ++ [freshState]) s) as s0 eqn:Hs0.
  assert (He0 : error s0 parent = error s parent) by (subst s0; by apply error_alloc_ctx).
  assert (Hl0 : length (cells s0) = S i).
  { subst s0; simpl. rewrite length_app. simpl. unfold i. lia. }
  assert (Hc0 : cell s0 i = freshState) by (subst s0; apply cell_alloc_new).
  rewrite doneHandler_done by (rewrite He0; by apply truthy_not_null).
  cbn [callHandler]. cbv zeta.
  remember (set_unregParentFunc i None s0) as sa eqn:Hsa.
  assert (Hca : cell sa i = freshState).
  { subst sa. rewrite cell_set_unregParentFunc, Hc0. by case_decide. }
  assert (Hea : error sa parent = error s parent).
  { rewrite <- He0, !error_owner. destruct (owner parent); [|done].
    subst sa. apply error_set_unregParentFunc. }
  rewrite Hea.
  rewrite (symCancelFunc_finish (callHandler n) i (error s parent) sa
             (set_error i (error s parent) sa)); cycle 1.
  { done. }
  { unfold isNull. by rewrite Hca. }
  { by rewrite Hca. }
  cbn [obind].
  remember (finish i (set_error i (error s parent) sa)) as sb eqn:Hsb.
  assert (Hlb : length (cells sb) = S i).
  { subst sb. pose proof (rtc_keeps _ _ (finish_rtc i (set_error i (error s parent) sa))) as [-> _].
    rewrite length_set_error. subst sa. by rewrite length_set_unregParentFunc. }
  assert (Heb : __error (cell sb i) = error s parent).
  { subst sb. rewrite error_finish, error_set_error. rewrite decide_True; [done |].
    split; [done |]. subst sa. rewrite length_set_unregParentFunc. lia. }
  assert (Hfin : sb = set_doneHandlers i [] (set_error i (error s parent) sa)).
  { subst sb. unfold finish. rewrite unreg_set_doneHandlers, unreg_set_error, Hca. done. }
  remember (set_unregParentFunc i (Some Noop) sb) as s2 eqn:Hs2.
  assert (He2 : __error (cell s2 i) = error s parent).
  { subst s2. by rewrite error_set_unregParentFunc. }
  assert (Hres : ∀ o : outcome ctx, o = Ok (CancelContext parent dl i) s2 →
    ∃ s', o = Ok (CancelContext parent dl i) s' ∧
          error s' (CancelContext parent dl i) = error s parent ∧
          __doneHandlers (cell s' i) = [] ∧ timers s' = timers s ∧
          nextSym s' = nextSym s ∧
          (∀ j, j < i → cell s' j = cell s j)).
  { intros o ->. exists s2. split; [done |]. split; [done |]. split; [|split; [|split]].
    - subst s2. rewrite handlers_set_unregParentFunc. subst sb. apply handlers_finish_self.
    - subst s2 sb sa s0. rewrite Hfin. done.
    - subst s2 sb sa s0. rewrite Hfin. done.
    - intros j Hj. subst s2. rewrite cell_set_unregParentFunc.
      rewrite decide_False by lia. rewrite Hfin.
      rewrite cell_set_doneHandlers, cell_set_error. rewrite !decide_False by lia.
      subst sa. rewrite cell_set_unregParentFunc. rewrite decide_False by lia.
      subst s0. by apply cell_alloc_old. }
  apply Hres. destruct dl as [d|]; [|done].
  rewrite He2. by rewrite (truthy_not_null _ Ht).
Qed.


Lemma undo_subscribeNew parent dl now E s :
  ctx_in (length (cells s)) parent → freshSymbols s →
  cell (finish (length (cells s))
         (set_error (length (cells s)) E (subscribeNew parent dl now s)))
       (length (cells s)) = mkCancelState E [] None ∧
  ∀ j, j ≠ length (cells s) →
    cell (finish (length (cells s))
           (set_error (length (cells s)) E (subscribeNew parent dl now s))) j = cell s j.
Proof.
  intros Hin Hfresh.
  set (i := length (cells s)).
  remember (subscribeNew parent dl now s) as s1 eqn:Hs1.
  assert (Hl1 : length (cells s1) = S i) by (subst s1; apply length_subscribeNew).
  assert (Hc1 : ∀ j, cell s1 j = _) by (intros j; subst s1; by apply cell_subscribeNew).
  fold i in Hc1.
  remember (set_doneHandlers i [] (set_error i E s1)) as s3 eqn:Hs3.
  assert (Hl3 : length (cells s3) = S i).
  { subst s3. by rewrite length_set_doneHandlers, length_set_error. }
  assert (Hc3 : ∀ j, cell s3 j =
    if decide (j = i) then
      mkCancelState E []
        (Some (match owner parent with Some k => Unreg k (nextSym s) | None => Noop end))
    else cell s1 j).
  { intros j. subst s3. rewrite cell_set_doneHandlers, cell_set_error, length_set_error, Hl1.
    destruct (decide (j = i)) as [->|Hne].
    - rewrite !decide_True by (split; [done | lia]). rewrite Hc1.
      by rewrite decide_True.
    - by rewrite !decide_False by (intros [? _]; done). }
  assert (Hfin : finish i (set_error i E s1) =
    set_unregParentFunc i None
      (callUnreg (match owner parent with Some k => Unreg k (nextSym s) | None => Noop end) s3)).
  { unfold finish. rewrite <- Hs3, Hc3. by rewrite decide_True. }
  rewrite Hfin. split.
  - rewrite cell_set_unregParentFunc, length_callUnreg, Hl3.
    rewrite decide_True by (split; [done | lia]). apply cancelState_ext; simpl.
    + rewrite error_callUnreg, Hc3. by rewrite decide_True.
    + apply handlers_filter_cell. rewrite Hc3. by rewrite decide_True.
    + done.
  - intros j Hj. rewrite cell_set_unregParentFunc.
    rewrite decide_False by (intros [? _]; done).
    apply cancelState_ext.
    + rewrite error_callUnreg, Hc3, decide_False, Hc1, decide_False by done.
      by case_decide.
    + rewrite handlers_callUnreg. destruct (owner parent) as [k|] eqn:Ho.
      * rewrite Hl3, !Hc3. rewrite !(decide_False (P := j = i)) by done.
        rewrite Hc1. rewrite (decide_False (P := j = i)) by done.
        destruct (decide (Some k = Some j)) as [[= ->]|Hkj].
        -- rewrite decide_True; cycle 1.
           { split; [done |]. apply (owner_in _ _ _ Hin) in Ho. fold i in Ho. lia. }
           simpl. apply filter_fresh_symbol. apply Hfresh.
        -- rewrite decide_False by (intros [-> _]; done). done.
      * rewrite Hc3, decide_False, Hc1, decide_False by done. by case_decide.
    + rewrite unreg_callUnreg, Hc3, decide_False, Hc1, decide_False by done.
      by case_decide.
Qed.

(** X8.  Making a child subscribes it on the node of its parent; once the child
    is cancelled the subscription is gone, and every existing node is as it
    was before the child was made. *)
Theorem cancelled_child_leaves_parent_as_before fuel fuel' parent dl now E s :
  ctx_in (length (cells s)) parent → error s parent = VNull → notYet now dl →
  freshSymbols s → truthy E = true →
  ∃ c s1 s2,
    newCancelContext fuel parent dl now s = Ok c s1 ∧
    (∀ j, owner parent = Some j →
       (nextSym s, HPropagate (length (cells s)) parent) ∈ __doneHandlers (cell s1 j)) ∧
    symCancelFunc (callHandler fuel') (length (cells s)) E s1 = Ok tt s2 ∧
    error s2 c = E ∧
    ∀ j, j < length (cells s) → cell s2 j = cell s j.
Proof.
  intros Hin Hact Hdl Hfresh HE.
  rewrite newCancelContext_active by done. eexists _, _, _. split; [done |].
  assert (Hc : cell (subscribeNew parent dl now s) (length (cells s)) = _)
    by by apply subscribeNew_new.
  split.
  { intros j Ho. rewrite cell_subscribeNew by done.
    rewrite decide_False by (apply (owner_in _ _ _ Hin) in Ho; lia).
    rewrite decide_True by done. simpl. apply elem_of_app. right.
    by apply list_elem_of_singleton. }
  destruct (undo_subscribeNew parent dl now E s Hin Hfresh) as [Hnew Hold].
  split; [|split].
  - apply symCancelFunc_finish; [done | unfold isNull; by rewrite Hc | by rewrite Hc].
  - simpl. by rewrite Hnew.
  - intros j Hj. apply Hold. lia.
Qed.



Lemma prim_timers s s' : prim s s' → timers s' = timers s.
Proof.
  destruct 1 as [i e s Hn Ht|i hs s _|i s|k s|p b v s]; try done.
  unfold settle. by destruct (promises s !! p) as [[[| |] ? ?]|].
Qed.

Lemma rtc_timers s s' : rtc prim s s' → timers s' = timers s.
Proof. induction 1 as [|s t u H%prim_timers _ IH]; congruence. Qed.

Lemma after_impl {A} (o : outcome A) (P Q : store → Prop) :
  (∀ s, P s → Q s) → after o P → after o Q.
Proof. destruct o; simpl; auto. Qed.

Lemma after_obind {A B} (o : outcome A) (r : A → B) Q :
  after o Q → after (obind o (λ a s', Ok (r a) s')) Q.
Proof. by destruct o. Qed.

Lemma symCancelFunc_timers fuel i err s :
  after (symCancelFunc (callHandler fuel) i err s) (λ s', timers s' = timers s).
Proof.
  eapply after_impl; [|apply symCancelFunc_rtc, callHandler_rtc]. apply rtc_timers.
Qed.

Lemma doneHandler_timers fuel c f s :
  after (doneHandler fuel c f s) (λ s', timers s' = timers s).
Proof.
  destruct (is_null (error s c)) eqn:Hn.
  - assert (error s c = VNull) as He by (by destruct (error s c)).
    rewrite doneHandler_active by done. by destruct (owner c).
  - rewrite doneHandler_done by done. apply after_obind.
    eapply after_impl; [|apply callHandler_rtc]. apply rtc_timers.
Qed.

Lemma newCancelContext_timers fuel parent dl now s :
  after (newCancelContext fuel parent dl now s) (λ s', timers s `prefix_of` timers s').
Proof.
  unfold newCancelContext.
  pose proof (doneHandler_timers fuel parent (HPropagate (length (cells s)) parent)
                (with_cells (λ cs, cs ++ [freshState]) s)) as H1.
  destruct (doneHandler _ _ _ _) as [u s1|s1|]; simpl in *; [| by rewrite H1 | done].
  assert (H2 : timers (set_unregParentFunc (length (cells s)) (Some u) s1) = timers s)
    by done.
  destruct dl as [d|]; [|simpl; by rewrite H1].
  destruct (is_null _); [|simpl; by rewrite H1].
  destruct (d - now <=? 0)%Z.
  - pose proof (symCancelFunc_timers fuel (length (cells s)) VDeadlineError
                  (set_unregParentFunc (length (cells s)) (Some u) s1)) as H3.
    destruct (symCancelFunc _ _ _ _); simpl in *; try done; by rewrite H3, H2.
  - simpl. rewrite H1. by apply prefix_app_r.
Qed.

(** X10.  No call removes a timer: the timers before a call are a prefix of
    those after it, and cancelling a node leaves them as they are.  A timer
    that fires on a node which has its error changes nothing. *)
Theorem timers_are_never_cleared a s :
  after (exec a s) (λ s', timers s `prefix_of` timers s') ∧
  (∀ i, after (exec (CallTrigger i) s) (λ s', timers s' = timers s)) ∧
  (∀ i, isNull s i = false → exec (TimerFires i) s = Ok RUnit s).
Proof.
  split; [|split].
  - destruct a as [i|i|c f|u|p dl now]; unfold exec.
    + apply after_obind. eapply after_impl; [|apply symCancelFunc_timers].
      by intros s' ->.
    + apply after_obind. eapply after_impl; [|apply symCancelFunc_timers].
      by intros s' ->.
    + apply after_obind. eapply after_impl; [|apply doneHandler_timers].
      by intros s' ->.
    + simpl. by rewrite timers_callUnreg.
    + apply after_obind. apply newCancelContext_timers.
  - intros i. unfold exec. apply after_obind. apply symCancelFunc_timers.
  - intros i Hn. unfold exec. by rewrite symCancelFunc_done.
Qed.

Lemma settle_keeps p pr q b v s :
  promises s !! p = Some pr → p_state pr ≠ Pending →
  promises (settle q b v s) !! p = Some pr.
Proof.
  intros Hp Hs. unfold settle.
  destruct (promises s !! q) as [[[| |] fs rs]|] eqn:Hq; try done. simpl.
  rewrite list_lookup_insert_ne; [done |]. intros ->. rewrite Hp in Hq. by simplify_eq.
Qed.

Lemma prim_keeps_settled p pr s s' :
  prim s s' → promises s !! p = Some pr → p_state pr ≠ Pending →
  promises s' !! p = Some pr.
Proof.
  destruct 1 as [i e s Hn Ht|i hs s _|i s|k s|q b v s]; try done.
  apply settle_keeps.
Qed.

Lemma rtc_keeps_settled p pr s s' :
  rtc prim s s' → promises s !! p = Some pr → p_state pr ≠ Pending →
  promises s' !! p = Some pr.
Proof. induction 1; eauto using prim_keeps_settled. Qed.

Lemma runJob_keeps_settled p pr j s :
  promises s !! p = Some pr → p_state pr ≠ Pending →
  promises (runJob j s) !! p = Some pr.
Proof.
  intros Hp Hs. destruct j as [[R c|R|R] v]; simpl.
  - apply settle_keeps; [|done]. by destruct (aborted s && c).
  - by apply settle_keeps.
  - by apply settle_keeps.
Qed.

Lemma runJobs_keeps_settled p pr fuel : ∀ s,
  promises s !! p = Some pr → p_state pr ≠ Pending →
  promises (runJobs fuel s) !! p = Some pr.
Proof.
  induction fuel as [|n IH]; intros s Hp Hs; simpl; [done |].
  destruct (jobs s) as [|j rest]; [done |]. apply IH; [|done].
  by apply runJob_keeps_settled.
Qed.

(** X11.  A promise that is settled keeps its state and value through every
    [resolve] and [reject], every handler call and every run of the job
    queue. *)
Theorem settled_promise_is_final p pr s :
  promises s !! p = Some pr → p_state pr ≠ Pending →
  (∀ q b v, promises (settle q b v s) !! p = Some pr) ∧
  (∀ fuel h, after (callHandler fuel h s) (λ s', promises s' !! p = Some pr)) ∧
  (∀ fuel, promises (runJobs fuel s) !! p = Some pr) ∧
  (∀ fuel code, after (turn fuel code s) (λ s', promises s' !! p = Some pr)).
Proof.
  intros Hp Hs. split; [|split; [|split]].
  - intros q b v. by apply settle_keeps.
  - intros fuel h. eapply after_impl; [|apply callHandler_rtc].
    intros s' Hr. by eapply rtc_keeps_settled.
  - intros fuel. by apply runJobs_keeps_settled.
  - intros fuel code. unfold turn.
    pose proof (runHandlers_rtc (callHandler fuel) (callHandler_rtc fuel) code s) as Hr.
    destruct (runHandlers _ _ _) as [[] s1|s1|]; simpl in *; [| |done].
    + apply runJobs_keeps_settled; [|done]. by eapply rtc_keeps_settled.
    + by eapply rtc_keeps_settled.
Qed.

(** X12.  A cancellable context made from a value context is subscribed on the
    cancellable node above that value context: cancelling that node with a
    cause gives the child the same cause, and the child sees the values of the
    value context. *)
Theorem cause_reaches_child_of_value_context s p d i j E :
  quietStore s → ownUnreg s → j < length (cells s) →
  owner p = Some j → subscribed s (CancelContext p d i) →
  error s (CancelContext p d i) = VNull → truthy E = true →
  ∃ s', cancel j E s = Ok tt s' ∧
        error s' p = E ∧ error s' (CancelContext p d i) = E ∧
        ∀ k, value (CancelContext p d i) k = value p k.
Proof.
  intros Hq Ho Hj Hown Hsub Hact HE.
  destruct (cancel_cascades E j s HE Hq Ho Hj) as (s' & Hrun & Hc & Hnn).
  exists s'. split; [done |]. simpl in *.
  destruct Hsub as (j' & Hown' & Hj' & sym & Hin); [unfold isNull; by rewrite Hact |].
  rewrite Hown in Hown'. simplify_eq.
  assert (Hp : __error (cell s' j') = E).
  { destruct (cas_err _ _ _ Hc j') as [He|[_ He]]; [|done].
    unfold isNull in *. rewrite He in Hnn. congruence. }
  split; [by rewrite error_owner, Hown |]. split; [|done].
  assert (Hi : isNull s' i = false).
  { apply (cas_closed _ _ _ Hc j' i); [by exists sym, p | done | done]. }
  destruct (cas_err _ _ _ Hc i) as [He|[_ He]]; [|done].
  unfold isNull in Hi. rewrite He, Hact in Hi. done.
Qed.

Lemma callUnreg_removes i sym s x :
  x ∈ __doneHandlers (cell (callUnreg (Unreg i sym) s) i) → x.1 ≠ sym.
Proof.
  rewrite handlers_callUnreg. case_decide.
  - by intros [? _]%list_elem_of_filter.
  - intros Hx. apply handler_in_range in Hx. tauto.
Qed.

Lemma callUnreg_other i sym s j : j ≠ i → cell (callUnreg (Unreg i sym) s) j = cell s j.
Proof.
  intros Hj. simpl. rewrite cell_set_doneHandlers. rewrite decide_False; [done |].
  intros [-> _]. done.
Qed.

(** X13.  [withDoneHandler] on a context without an error: on each way out
    (the scope's promise fulfilled, rejected, or [scopeFunc] throwing before it
    returns one) the handler's entry is removed, the other entries of the node
    and the other nodes are left alone, and the outcome of the scope is passed
    on. *)
Theorem withDoneHandler_always_unregisters fuel c h scopeFunc i s :
  owner c = Some i → error s c = VNull →
  match withDoneHandler fuel c h scopeFunc s with
  | Ok (Awaiting Q u) s3 =>
      u = Unreg i (nextSym s) ∧
      promises s3 !! Q = Some (mkPromise (op_result scopeFunc) [] []) ∧
      ∀ awaited t, awaited ≠ Pending →
        (withDoneHandler_resume u awaited t).1 = awaited ∧
        (∀ x, x ∈ __doneHandlers (cell (withDoneHandler_resume u awaited t).2 i) →
              x.1 ≠ nextSym s) ∧
        (∀ x, x ∈ __doneHandlers (cell t i) → x.1 ≠ nextSym s →
              x ∈ __doneHandlers (cell (withDoneHandler_resume u awaited t).2 i)) ∧
        (∀ j, j ≠ i → cell (withDoneHandler_resume u awaited t).2 j = cell t j)
  | Ok (Finished r) s3 =>
      r = Rejected VMisuseError ∧
      ∀ x, x ∈ __doneHandlers (cell s3 i) → x.1 ≠ nextSym s
  | Throw _ => False
  | OutOfFuel => True
  end.
Proof.
  intros Ho He. unfold withDoneHandler. rewrite doneHandler_active by done. rewrite Ho.
  destruct (runHandlers _ _ _) as [[] s2|s2|]; [| |done].
  - simpl. split; [done |]. split; [by rewrite list_lookup_middle |].
    intros awaited t Hp.
    assert (withDoneHandler_resume (Unreg i (nextSym s)) awaited t
            = (awaited, callUnreg (Unreg i (nextSym s)) t)) as ->
      by (by destruct awaited).
    cbn [fst snd]. split; [done |]. split; [apply callUnreg_removes |]. split.
    + intros x Hx Hne. rewrite handlers_callUnreg.
      pose proof (handler_in_range _ _ _ Hx). rewrite decide_True by done.
      by apply list_elem_of_filter.
    + intros j Hj. by apply callUnreg_other.
  - split; [done |]. apply callUnreg_removes.
Qed.

(** X14.  A scope that registers nothing itself: the handler is in the node's
    list while the scope runs, and when the scope has ended all nodes are as
    they were before [withDoneHandler] was called. *)
Theorem withDoneHandler_scope_round_trip fuel c h i awaited result s :
  owner c = Some i → error s c = VNull → freshSymbols s → awaited ≠ Pending →
  ∃ Q u s3,
    withDoneHandler fuel c h (mkOperation [] result) s = Ok (Awaiting Q u) s3 ∧
    (i < length (cells s) → (nextSym s, h) ∈ __doneHandlers (cell s3 i)) ∧
    (withDoneHandler_resume u awaited s3).1 = awaited ∧
    cells (withDoneHandler_resume u awaited s3).2 = cells s ∧
    trace (withDoneHandler_resume u awaited s3).2 = trace s.
Proof.
  intros Ho He Hfresh Hp.
  destruct (doneHandler_callUnreg fuel c h i s Ho He (Hfresh i))
    as (u & s1 & Hreg & Hin & Hcells & Htrace).
  unfold withDoneHandler. rewrite Hreg. simpl.
  eexists _, _, _. split; [done |]. split; [done |].
  assert (∀ t, withDoneHandler_resume u awaited t = (awaited, callUnreg u t)) as ->
    by (intros t; by destruct awaited).
  cbn [fst snd]. split; [done |].
  rewrite doneHandler_active in Hreg by done. rewrite Ho in Hreg. simplify_eq.
  split; [exact Hcells | exact Htrace].
Qed.

Lemma runHandlers_app call hs1 hs2 s :
  runHandlers call (hs1 ++ hs2) s =
    match runHandlers call hs1 s with
    | Ok _ s' => runHandlers call hs2 s'
    | r => r
    end.
Proof.
  revert s. induction hs1 as [|h hs1 IH]; intros s; simpl; [done |].
  destruct (call h s) as [[] s'|s'|]; auto.
Qed.

Lemma promises_finish i s : promises (finish i s) = promises s.
Proof.
  unfold finish. destruct (__unregParentFunc _) as [u|]; [|done]. by destruct u.
Qed.

Lemma jobs_finish i s : jobs (finish i s) = jobs s.
Proof.
  unfold finish. destruct (__unregParentFunc _) as [u|]; [|done]. by destruct u.
Qed.

Lemma settle_pending l b v s :
  promises s = l ++ [mkPromise Pending [] []] →
  settle (length l) b v s =
    with_promises (l ++ [mkPromise (if b then Fulfilled v else Rejected v) [] []]) s.
Proof.
  intros Hp. unfold settle. rewrite Hp, list_lookup_middle by done.
  replace (length l) with (length l + 0) at 1 by lia. rewrite insert_app_r. simpl.
  destruct b; simpl; rewrite app_nil_r; by destruct s.
Qed.

(** X15.  The promise of [expiryPromise] is rejected with the error of the
    context: at once when the context has one, and otherwise by the transition
    that gives it one (here on a node whose other handlers are observers). *)
Theorem expiryPromise_rejects_with_the_cause n c s :
  (is_null (error s c) = false →
     ∃ s', expiryPromise (S n) c s = Ok (length (promises s)) s' ∧
           promises s' = promises s ++ [mkPromise (Rejected (error s c)) [] []] ∧
           cells s' = cells s ∧ jobs s' = jobs s) ∧
  (∀ i ks E, owner c = Some i → i < length (cells s) → isNull s i = true →
     map snd (__doneHandlers (cell s i)) = map HUser ks → truthy E = true →
     ∃ s1 s2, expiryPromise (S n) c s = Ok (length (promises s)) s1 ∧
              promises s1 = promises s ++ [mkPromise Pending [] []] ∧
              symCancelFunc (callHandler (S n)) i E s1 = Ok tt s2 ∧
              promises s2 = promises s ++ [mkPromise (Rejected E) [] []] ∧
              trace s2 = trace s ++ ks ∧ jobs s2 = jobs s).
Proof.
  split.
  - intros Hn. unfold expiryPromise, newPromise.
    rewrite doneHandler_done by (by rewrite !error_owner in *).
    cbn [callHandler obind].
    erewrite settle_pending by done. eexists. split; [done |].
    split; [|done]. simpl. do 3 f_equal. by rewrite !error_owner.
  - intros i ks E Ho Hi Hn Hks HE. unfold expiryPromise, newPromise.
    rewrite doneHandler_active; cycle 1.
    { rewrite error_owner, Ho. unfold isNull in Hn.
      change (cell (with_promises _ s) i) with (cell s i). by destruct (__error (cell s i)). }
    rewrite Ho. cbn [obind].
    remember (register i (HExpiry (length (promises s)) c)
               (with_promises (promises s ++ [mkPromise Pending [] []]) s)) as s1 eqn:Hs1.
    assert (Hh1 : map snd (__doneHandlers (cell s1 i))
                  = map HUser ks ++ [HExpiry (length (promises s)) c]).
    { subst s1. rewrite handlers_register.
      change (cells (with_promises _ s)) with (cells s).
      change (cell (with_promises _ s) i) with (cell s i).
      rewrite decide_True by done. by rewrite map_app, Hks. }
    assert (Hn1 : isNull s1 i = true).
    { unfold isNull. subst s1. by rewrite error_register. }
    assert (Hl1 : length (cells s1) = length (cells s)).
    { subst s1. by rewrite length_register. }
    remember (with_trace (trace (set_error i E s1) ++ ks) (set_error i E s1)) as t eqn:Ht.
    assert (Hrun : runHandlers (callHandler (S n)) (map snd (__doneHandlers (cell s1 i)))
                     (set_error i E s1)
                   = Ok tt (settle (length (promises s)) false E t)).
    { rewrite Hh1, runHandlers_app, runHandlers_observers, <- Ht. simpl.
      do 2 f_equal. rewrite error_owner, Ho. subst t.
      change (cell (with_trace _ (set_error i E s1)) i) with (cell (set_error i E s1) i).
      rewrite error_set_error. rewrite decide_True; [done | split; [done | lia]]. }
    eexists s1, _. split; [done |]. split; [by subst s1 |].
    split; [by apply symCancelFunc_finish |].
    assert (Hpt : promises t = promises s ++ [mkPromise Pending [] []]) by (by subst t s1).
    rewrite promises_finish, trace_finish, jobs_finish.
    rewrite (settle_pending _ _ _ _ Hpt). subst t s1. done.
Qed.

Lemma then_pending l fs rs a b s :
  promises s = l ++ [mkPromise Pending fs rs] →
  then_ (length l) a b s =
    with_promises (l ++ [mkPromise Pending (fs ++ option_list a) (rs ++ option_list b)]) s.
Proof.
  intros Hp. unfold then_. rewrite Hp, list_lookup_middle by done.
  replace (length l) with (length l + 0) at 1 by lia. by rewrite insert_app_r.
Qed.

Lemma settle_at l pr rest b v s :
  promises s = l ++ mkPromise Pending (p_onFulfilled pr) (p_onRejected pr) :: rest →
  settle (length l) b v s =
    with_jobs (jobs s ++ map (λ r, (r, v)) (if b then p_onFulfilled pr else p_onRejected pr))
      (with_promises
         (l ++ mkPromise (if b then Fulfilled v else Rejected v) [] [] :: rest) s).
Proof.
  intros Hp. unfold settle. rewrite Hp, list_lookup_middle by done.
  replace (length l) with (length l + 0) at 1 by lia. by rewrite insert_app_r.
Qed.

Lemma raceContext_pending fuel c cleanupFunc s :
  error s c = VNull →
  ∃ s1, raceContext fuel c (mkOperation [] Pending) cleanupFunc s
          = Ok (length (promises s)) s1 ∧
        promises s1 = promises s ++
          [mkPromise Pending [] [];
           mkPromise Pending [ROperationDone (length (promises s)) cleanupFunc]
                             [ROperationFailed (length (promises s))];
           mkPromise Pending [] [RExpired (length (promises s))]] ∧
        jobs s1 = jobs s ∧ aborted s1 = false ∧ cleaned s1 = cleaned s ∧
        fcalls s1 = S (fcalls s) ∧ trace s1 = trace s.
Proof.
  intros He. unfold raceContext. rewrite He. cbn [is_null negb newPromise op_body
    op_result runHandlers].
  set (R := length (promises s)).
  remember (with_fcalls _ _) as s2 eqn:Hs2.
  assert (Hp2 : promises s2 = promises s ++ [mkPromise Pending [] []]) by (by subst s2).
  remember (with_promises (promises s2 ++ [mkPromise Pending [] []]) s2) as s4 eqn:Hs4.
  assert (Hp4 : promises s4 = promises s2 ++ [mkPromise Pending [] []]) by (by subst s4).
  rewrite (then_pending _ _ _ _ _ _ Hp4). cbn [option_list app].
  remember (with_promises _ s4) as s5 eqn:Hs5.
  assert (Hp5 : promises s5 = promises s2 ++
            [mkPromise Pending [ROperationDone R cleanupFunc] [ROperationFailed R]])
    by (by subst s5).
  unfold expiryPromise, newPromise.
  rewrite doneHandler_active by (rewrite !error_owner in *; by subst s5 s4 s2).
  assert (∀ (u : unregFunc) s6, promises s6 = promises s5 ++ [mkPromise Pending [] []] →
            jobs s6 = jobs s → aborted s6 = false → cleaned s6 = cleaned s →
            fcalls s6 = S (fcalls s) → trace s6 = trace s →
            ∃ s1, (match obind (Ok u s6) (λ (_ : unregFunc) s7, Ok (length (promises s5)) s7) with
                   | Ok P s7 => Ok R (then_ P None (Some (RExpired R)) s7)
                   | Throw s7 => Ok R (settle R false VMisuseError s7)
                   | OutOfFuel => OutOfFuel
                   end) = Ok R s1 ∧
                  promises s1 = promises s ++
                    [mkPromise Pending [] [];
                     mkPromise Pending [ROperationDone R cleanupFunc] [ROperationFailed R];
                     mkPromise Pending [] [RExpired R]] ∧
                  jobs s1 = jobs s ∧ aborted s1 = false ∧ cleaned s1 = cleaned s ∧
                  fcalls s1 = S (fcalls s) ∧ trace s1 = trace s) as Hend.
  { intros u s6 Hp6 Hj Ha Hc Hf Ht. cbn [obind].
    rewrite (then_pending _ _ _ _ _ _ Hp6). eexists. split; [done |].
    split; [|done]. simpl. rewrite Hp5, Hp2. by rewrite <- !app_assoc. }
  destruct (owner c) as [i|]; apply Hend; by subst s5 s4 s2.
Qed.

Lemma lookup_after_one {A} (l : list A) a b rest :
  (l ++ a :: b :: rest) !! S (length l) = Some b.
Proof.
  rewrite lookup_app_r by lia. by replace (S (length l) - length l) with 1 by lia.
Qed.

Lemma insert_after_one {A} (l : list A) a b rest y :
  <[S (length l) := y]> (l ++ a :: b :: rest) = l ++ a :: y :: rest.
Proof. replace (S (length l)) with (length l + 1) by lia. by rewrite insert_app_r. Qed.

Lemma insert_middle {A} (l : list A) a rest y :
  <[length l := y]> (l ++ a :: rest) = l ++ y :: rest.
Proof. replace (length l) with (length l + 0) at 1 by lia. by rewrite insert_app_r. Qed.

Lemma runJobs_idle fuel s : jobs s = [] → runJobs fuel s = s.
Proof. intros H. destruct fuel; simpl; [done | by rewrite H]. Qed.

(** X16.  [raceContext] on a context without an error starts the operation
    once.  If the operation's promise settles while the context still has no
    error, the returned promise is settled the same way (fulfilled with the
    value, or rejected with the failure) and [cleanupFunc] is not called. *)
Theorem race_settled_by_the_operation n c cleanupFunc b x s :
  error s c = VNull → jobs s = [] →
  ∃ s1 s2,
    raceContext (S n) c (mkOperation [] Pending) cleanupFunc s
      = Ok (length (promises s)) s1 ∧
    fcalls s1 = S (fcalls s) ∧
    turn (S n) [HSettle (S (length (promises s))) b x] s1 = Ok tt s2 ∧
    promises s2 !! length (promises s)
      = Some (mkPromise (if b then Fulfilled x else Rejected x) [] []) ∧
    cleaned s2 = cleaned s ∧ jobs s2 = [] ∧ cells s2 = cells s1.
Proof.
  intros He Hj.
  destruct (raceContext_pending (S n) c cleanupFunc s He)
    as (s1 & Hrace & Hp1 & Hj1 & Ha1 & Hc1 & Hf1 & Ht1).
  exists s1. rewrite Hrace. clear Hrace.
  destruct s1 as [cs ns ti tr ps js ab cl fc]. simpl in *. subst ps js ab cl fc.
  rewrite Hj. unfold turn. cbn [runHandlers callHandler obind]. unfold settle at 1.
  cbn [promises]. rewrite lookup_after_one, insert_after_one.
  destruct b;
    cbv [runJobs runJob with_jobs with_promises with_cleaned with_aborted jobs promises
         cells nextSym timers trace aborted cleaned fcalls andb map];
    fold runJobs; cbn [app];
    cbv [settle with_jobs with_promises jobs promises cells nextSym timers trace aborted
         cleaned fcalls map];
    rewrite list_lookup_middle by done; rewrite insert_middle; cbn [app];
    rewrite runJobs_idle by done; eexists; (split; [reflexivity |]);
    (split; [reflexivity |]); (split; [reflexivity |]);
    cbv [promises cleaned jobs cells]; rewrite list_lookup_middle by done; done.
Qed.

Lemma causesFromModule_same_errors s s' :
  (∀ j, __error (cell s' j) = __error (cell s j)) →
  causesFromModule s → causesFromModule s'.
Proof. intros He H j. rewrite He. apply H. Qed.

Lemma causesFromModule_finish i s : causesFromModule s → causesFromModule (finish i s).
Proof. apply causesFromModule_same_errors. intros j. apply error_finish. Qed.

Lemma causesFromModule_error s c :
  causesFromModule s → truthy (error s c) = true → moduleCause (error s c).
Proof.
  intros H. rewrite error_owner. destruct (owner c) as [j|]; [|done].
  destruct (H j) as [->|?]; [done | auto].
Qed.

Section Causes.
Variable call : handler → store → outcome unit.
Hypothesis call_causes : ∀ h s, causesFromModule s → after (call h s) causesFromModule.

Lemma runHandlers_causes hs s :
  causesFromModule s → after (runHandlers call hs s) causesFromModule.
Proof.
  revert s. induction hs as [|h hs IH]; intros s Hs; simpl; [done |].
  specialize (call_causes h s Hs). destruct (call h s) as [[] s'|s'|]; simpl in *; auto.
Qed.

Lemma symCancelFunc_causes i err s :
  (truthy err = true → moduleCause err) → causesFromModule s →
  after (symCancelFunc call i err s) causesFromModule.
Proof.
  intros Herr Hs. unfold symCancelFunc.
  destruct (truthy err) eqn:Ht; simpl; [|done].
  destruct (is_null (__error (cell s i))) eqn:Hn; simpl; [|done].
  assert (Hs1 : causesFromModule (set_error i err s)).
  { intros j. rewrite error_set_error. case_decide; [right; auto | apply Hs]. }
  pose proof (runHandlers_causes
                (map snd (__doneHandlers (cell (set_error i err s) i))) _ Hs1) as Hr.
  destruct (runHandlers call _ _) as [[] s2|s2|]; simpl in *; try done.
  destruct (__unregParentFunc _); simpl;
    (eapply causesFromModule_same_errors; [|exact Hr]); intros j;
    by rewrite ?error_set_unregParentFunc, ?error_callUnreg, error_set_doneHandlers.
Qed.
End Causes.

Lemma callHandler_causes n : ∀ h s,
  causesFromModule s → after (callHandler n h s) causesFromModule.
Proof.
  induction n as [|n IH]; intros h s Hs; simpl; [done |].
  destruct h; simpl.
  - by eapply causesFromModule_same_errors.
  - eapply causesFromModule_same_errors; [|done]. intros j. apply error_callUnreg.
  - apply symCancelFunc_causes; [done | by left | done].
  - eapply causesFromModule_same_errors; [|done]. intros j. by rewrite cell_settle.
  - assert (Hs' : causesFromModule (set_unregParentFunc child None s)).
    { eapply causesFromModule_same_errors; [|done]. intros j.
      apply error_set_unregParentFunc. }
    apply symCancelFunc_causes; [done | | done]. by apply causesFromModule_error.
  - eapply causesFromModule_same_errors; [|done]. intros j. by rewrite cell_settle.
Qed.

Lemma doneHandler_causes fuel c f s :
  causesFromModule s → after (doneHandler fuel c f s) causesFromModule.
Proof.
  intros Hs. destruct (is_null (error s c)) eqn:Hn.
  - assert (error s c = VNull) as He by (by destruct (error s c)).
    rewrite doneHandler_active by done. destruct (owner c); simpl; [|done].
    eapply causesFromModule_same_errors; [|done]. intros j. apply error_register.
  - rewrite doneHandler_done by done. apply after_obind. by apply callHandler_causes.
Qed.

Lemma newCancelContext_causes fuel p dl now s :
  causesFromModule s → after (newCancelContext fuel p dl now s) causesFromModule.
Proof.
  intros Hs. unfold newCancelContext.
  assert (Hs0 : causesFromModule (with_cells (λ cs, cs ++ [freshState]) s)).
  { intros j. rewrite cell_alloc. case_decide; [apply Hs | by left]. }
  pose proof (doneHandler_causes fuel p (HPropagate (length (cells s)) p) _ Hs0) as H1.
  destruct (doneHandler _ _ _ _) as [u s1|s1|]; simpl in *; try done.
  assert (H2 : causesFromModule (set_unregParentFunc (length (cells s)) (Some u) s1)).
  { eapply causesFromModule_same_errors; [|done]. intros j.
    apply error_set_unregParentFunc. }
  destruct dl as [d|]; [|done]. destruct (is_null _); [|done].
  destruct (d - now <=? 0)%Z.
  - apply after_obind.
    apply symCancelFunc_causes; [apply callHandler_causes | intros _; by right | done].
  - simpl. by eapply causesFromModule_same_errors.
Qed.

Lemma exec_causes a s : causesFromModule s → after (exec a s) causesFromModule.
Proof.
  intros Hs. unfold exec. generalize (fuelFor s). intros fuel.
  destruct a as [i|i|c f|u|p dl now].
  - apply after_obind.
    apply symCancelFunc_causes; [apply callHandler_causes | intros _; by left | done].
  - apply after_obind.
    apply symCancelFunc_causes; [apply callHandler_causes | intros _; by right | done].
  - apply after_obind. by apply doneHandler_causes.
  - simpl. eapply causesFromModule_same_errors; [|done]. intros j. apply error_callUnreg.
  - apply after_obind. by apply newCancelContext_causes.
Qed.

(** X17.  In every store the interface produces, the error of a context is
    [null], [true] or the [DeadlineError] value. *)
Theorem error_is_true_or_deadline_error s :
  reachable s →
  ∀ c, error s c = VNull ∨ error s c = VBool true ∨ error s c = VDeadlineError.
Proof.
  intros Hr.
  assert (Hs : causesFromModule s).
  { induction Hr as [|a r s s' _ IH _ He].
    - intros j. left. by rewrite cell_fresh_out by (simpl; lia).
    - pose proof (exec_causes a s IH) as H. by rewrite He in H. }
  intros c. rewrite error_owner. destruct (owner c) as [j|]; [|by left].
  destruct (Hs j) as [?|[?|?]]; auto.
Qed.

Lemma tidy_s_c0 : tidy s_c0.
Proof. apply (subscribeNew_tidy background None 0%Z emptyStore I tidy_emptyStore). Qed.

Lemma freshSymbols_s_c0 : freshSymbols s_c0.
Proof. destruct tidy_s_c0 as (_ & _ & H & _). exact H. Qed.

Lemma reachable_s_done : reachable s_done.
Proof.
  apply (reachable_exec (CallTrigger 0) RUnit s_c0); [|exact I | reflexivity].
  apply (reachable_exec (NewCancelContext background None 0%Z) (RCtx c0) emptyStore);
    [apply reachable_empty | exact I | reflexivity].
Qed.

Lemma in_s_c0 : ctx_in (length (cells s_c0)) c0.
Proof. simpl. split; [vm_compute; lia | exact I]. Qed.

Lemma value_is_first_binding_witness :
  value (withValue (withValue (CancelContext background None 0) (KString "k") (VNum 1))
           (KString "k") (VNum 2)) (KString "k") = VNum 2.
Proof.
  refine (eq_trans (proj1 (value_is_first_binding _ _)) _). reflexivity.
Defined.

Lemma rootless_context_is_inert_witness :
  deadline (withValue todo (KString "k") (VNum 1)) = None.
Proof.
  exact (proj1 (rootless_context_is_inert (withValue todo (KString "k") (VNum 1)) eq_refl)).
Defined.

Lemma register_unregister_round_trip_witness :
  ∃ u s1, doneHandler 3 c0 (HCallCancel 0) s_obs = Ok u s1 ∧
          (0 < length (cells s_obs) → (nextSym s_obs, HCallCancel 0) ∈ __doneHandlers (cell s1 0)) ∧
          cells (callUnreg u s1) = cells s_obs ∧
          trace (callUnreg u s1) = trace s_obs.
Proof.
  apply (register_unregister_round_trip 3 c0 (HCallCancel 0) 0 s_obs);
    [reflexivity | reflexivity |].
  intros x Hx. change (__doneHandlers (cell s_obs 0)) with [(0, HUser 7)] in Hx.
  apply list_elem_of_singleton in Hx as ->. vm_compute. lia.
Defined.

Lemma unregister_is_idempotent_witness :
  callUnreg (Unreg 0 1) (callUnreg (Unreg 0 1) s_gf) = callUnreg (Unreg 0 1) s_gf.
Proof. exact (proj1 (unregister_is_idempotent (Unreg 0 1) s_gf)). Defined.

Lemma unregister_after_done_is_noop_witness : callUnreg (Unreg 0 0) s_done = s_done.
Proof.
  apply unregister_after_done_is_noop; [|reflexivity].
  apply reachable_doneMeansEmpty, reachable_s_done.
Defined.

Lemma observers_fire_once_in_order_witness :
  ∃ s', symCancelFunc (callHandler 1) 0 VDeadlineError s_obs = Ok tt s' ∧
        trace s' = trace s_obs ++ [7] ∧
        __error (cell s' 0) = VDeadlineError ∧
        __doneHandlers (cell s' 0) = [] ∧
        ∀ fuel err', truthy err' = true →
          symCancelFunc (callHandler fuel) 0 err' s' = Ok tt s'.
Proof.
  apply (observers_fire_once_in_order 0 0 VDeadlineError [7] s_obs);
    [vm_compute; lia | reflexivity | reflexivity | reflexivity].
Defined.

Lemma context_of_done_parent_is_born_done_witness :
  ∃ s', newCancelContext 1 c0 (Some 5%Z) 0%Z s_done
          = Ok (CancelContext c0 (Some 5%Z) (length (cells s_done))) s' ∧
        error s' (CancelContext c0 (Some 5%Z) (length (cells s_done))) = error s_done c0 ∧
        __doneHandlers (cell s' (length (cells s_done))) = [] ∧
        timers s' = timers s_done ∧
        nextSym s' = nextSym s_done ∧
        (∀ j, j < length (cells s_done) → cell s' j = cell s_done j).
Proof.
  apply (context_of_done_parent_is_born_done 0 c0 (Some 5%Z) 0%Z s_done);
    [|reflexivity].
  simpl. split; [vm_compute; lia | exact I].
Defined.

Lemma cancelled_child_leaves_parent_as_before_witness :
  ∃ c s1 s2,
    newCancelContext 2 c0 None 0%Z s_c0 = Ok c s1 ∧
    (∀ j, owner c0 = Some j →
       (nextSym s_c0, HPropagate (length (cells s_c0)) c0) ∈ __doneHandlers (cell s1 j)) ∧
    symCancelFunc (callHandler 2) (length (cells s_c0)) (VBool true) s1 = Ok tt s2 ∧
    error s2 c = VBool true ∧
    ∀ j, j < length (cells s_c0) → cell s2 j = cell s_c0 j.
Proof.
  apply (cancelled_child_leaves_parent_as_before 2 2 c0 None 0%Z (VBool true) s_c0);
    [apply in_s_c0 | reflexivity | exact I | apply freshSymbols_s_c0 | reflexivity].
Defined.


Lemma timers_are_never_cleared_witness : exec (TimerFires 0) s_done = Ok RUnit s_done.
Proof.
  apply (proj2 (proj2 (timers_are_never_cleared (TimerFires 0) s_done)) 0). reflexivity.
Defined.

Lemma settled_promise_is_final_witness :
  promises s_rejected !! 0 = Some (mkPromise (Rejected (VBool true)) [] []) ∧
  promises (settle 0 true (VNum 42) s_rejected) !! 0
    = Some (mkPromise (Rejected (VBool true)) [] []) ∧
  promises (runJobs 3 s_rejected) !! 0
    = Some (mkPromise (Rejected (VBool true)) [] []).
Proof.
  destruct (settled_promise_is_final 0 (mkPromise (Rejected (VBool true)) [] [])
              s_rejected eq_refl ltac:(discriminate)) as (H1 & _ & H3 & _).
  split; [reflexivity | split; [apply H1 | apply H3]].
Defined.

Lemma cause_reaches_child_of_value_context_witness :
  ∃ s', cancel 0 VDeadlineError (subscribeNew pv None 0%Z s_c0) = Ok tt s' ∧
        error s' pv = VDeadlineError ∧
        error s' (CancelContext pv None 1) = VDeadlineError ∧
        ∀ k, value (CancelContext pv None 1) k = value pv k.
Proof.
  assert (Hin : ctx_in (length (cells s_c0)) pv) by apply in_s_c0.
  destruct (subscribeNew_tidy pv None 0%Z s_c0 Hin tidy_s_c0) as (Hq & Ho & _).
  apply (cause_reaches_child_of_value_context _ pv None 1 0 VDeadlineError Hq Ho);
    [vm_compute; lia | reflexivity | | reflexivity | reflexivity].
  apply (subscribeNew_subscribed_new pv None 0%Z s_c0 Hin 0); reflexivity.
Defined.

Lemma withDoneHandler_always_unregisters_witness :
  (withDoneHandler_resume (Unreg 0 0) (Rejected (VObj 1)) s_scope).1 = Rejected (VObj 1) ∧
  ∀ x, x ∈ __doneHandlers
             (cell (withDoneHandler_resume (Unreg 0 0) (Rejected (VObj 1)) s_scope).2 0) →
       x.1 ≠ 0.
Proof.
  pose proof (withDoneHandler_always_unregisters 3 c0 (HUser 7) f_pending 0 s_c0
                eq_refl eq_refl) as H.
  change (withDoneHandler 3 c0 (HUser 7) f_pending s_c0)
    with (Ok (Awaiting 0 (Unreg 0 0)) s_scope) in H.
  destruct H as (_ & _ & H).
  destruct (H (Rejected (VObj 1)) s_scope ltac:(discriminate)) as (H1 & H2 & _).
  split; [exact H1 | exact H2].
Defined.

Lemma withDoneHandler_scope_round_trip_witness :
  ∃ Q u s3,
    withDoneHandler 3 c0 (HUser 7) (mkOperation [] Pending) s_c0 = Ok (Awaiting Q u) s3 ∧
    (0 < length (cells s_c0) → (nextSym s_c0, HUser 7) ∈ __doneHandlers (cell s3 0)) ∧
    (withDoneHandler_resume u (Fulfilled (VNum 3)) s3).1 = Fulfilled (VNum 3) ∧
    cells (withDoneHandler_resume u (Fulfilled (VNum 3)) s3).2 = cells s_c0 ∧
    trace (withDoneHandler_resume u (Fulfilled (VNum 3)) s3).2 = trace s_c0.
Proof.
  apply (withDoneHandler_scope_round_trip 3 c0 (HUser 7) 0 (Fulfilled (VNum 3)) Pending s_c0);
    [reflexivity | reflexivity | apply freshSymbols_s_c0 | discriminate].
Defined.

Lemma expiryPromise_rejects_with_the_cause_witness :
  ∃ s', expiryPromise 1 c0 s_done = Ok (length (promises s_done)) s' ∧
        promises s' = promises s_done ++ [mkPromise (Rejected (error s_done c0)) [] []] ∧
        cells s' = cells s_done ∧ jobs s' = jobs s_done.
Proof.
  apply (proj1 (expiryPromise_rejects_with_the_cause 0 c0 s_done)). reflexivity.
Defined.

Lemma race_settled_by_the_operation_witness :
  ∃ s1 s2,
    raceContext 1 c0 (mkOperation [] Pending) true s_c0 = Ok (length (promises s_c0)) s1 ∧
    fcalls s1 = S (fcalls s_c0) ∧
    turn 1 [HSettle (S (length (promises s_c0))) true (VNum 42)] s1 = Ok tt s2 ∧
    promises s2 !! length (promises s_c0)
      = Some (mkPromise (Fulfilled (VNum 42)) [] []) ∧
    cleaned s2 = cleaned s_c0 ∧ jobs s2 = [] ∧ cells s2 = cells s1.
Proof.
  apply (race_settled_by_the_operation 0 c0 true true (VNum 42) s_c0); reflexivity.
Defined.

Lemma error_is_true_or_deadline_error_witness :
  error s_done c0 = VNull ∨ error s_done c0 = VBool true ∨ error s_done c0 = VDeadlineError.
Proof. apply (error_is_true_or_deadline_error s_done reachable_s_done c0). Defined.
